(** * RFP-Genius: the PDF extraction pipeline and the PDF viewer session

    A shallow embedding of
    - [AppComponent.handleFiles], [AppComponent.processFiles] and
      [AppComponent.clearFiles] (app.component.ts), and
    - [PdfViewerComponent] (components/pdf-viewer/pdf-viewer.component.ts),
    followed by the properties of the specification stated over them.

    Signals are record fields; an [async] method is cut at its [await]s.
    pdf.js is the consumed parser port: what it answers is data of the model
    (a file says whether it can be read and parsed and what its pages hold)
    or a choice of the environment (which pending promise settles next). *)

From Stdlib Require Import String Ascii List Bool Arith ZArith QArith Qminmax Lia.
From Stdlib Require Import DecimalString.
Import ListNotations.

Local Open Scope string_scope.
Local Open Scope list_scope.

(** ** The parser port: what pdf.js answers for a file *)

Module Port.

(** One page of a document: [pdf.getPage(i)] may reject, [page.getTextContent()]
    may reject, otherwise the page yields its items in the order the parser
    returns them; an item is modelled by its [str] (an item without [str]
    prints as the empty string under [Array.prototype.join]). *)
Inductive Page : Type :=
| GetPageRejects
| GetTextContentRejects
| PageText (items : list string).

(** The bytes of a file: [file.arrayBuffer()] may reject,
    [pdfjsLib.getDocument(buf).promise] may reject, otherwise the document has
    the listed pages, [numPages] being their number. *)
Inductive Blob : Type :=
| ArrayBufferRejects
| GetDocumentRejects
| Pdf (pages : list Page).

Record File : Type := mkFile { name : string; data : Blob }.

Definition numPages (pages : list Page) : Z := Z.of_nat (List.length pages).

End Port.

(** ** JavaScript string and array primitives used by the source *)

Module Js.

(** The line feed character. *)
Definition LF : string := String (ascii_of_nat 10) EmptyString.

(** [Array.prototype.join(sep)] on an array of strings. *)
Fixpoint join (sep : string) (xs : list string) : string :=
  match xs with
  | [] => ""
  | [x] => x
  | x :: rest => x ++ sep ++ join sep rest
  end.

(** [String.prototype.toLowerCase] on the ASCII letters; every other
    character is kept. *)
Definition lowerChar (c : ascii) : ascii :=
  let n := nat_of_ascii c in
  if (65 <=? n)%nat && (n <=? 90)%nat then ascii_of_nat (n + 32) else c.

Fixpoint toLowerCase (s : string) : string :=
  match s with
  | EmptyString => EmptyString
  | String c rest => String (lowerChar c) (toLowerCase rest)
  end.

(** [String.prototype.endsWith]. *)
Definition endsWith (s suffix : string) : bool :=
  (String.length suffix <=? String.length s)%nat
  && String.eqb
       (substring (String.length s - String.length suffix) (String.length suffix) s)
       suffix.

(** The decimal print of a length, as a template literal inserts it. *)
Definition showNat (n : nat) : string := NilEmpty.string_of_uint (Nat.to_uint n).

End Js.

(** ** AppComponent: file staging and text extraction *)

Module App.
Import Port Js.

Inductive OutputFormat : Type := Json | Markdown | Text.

Record ProposalResult : Type :=
  { answer : string; followUpQuestions : list string }.

Record ChatHistoryItem : Type :=
  { item_question : string; item_result : ProposalResult }.

(** The signals of the component. *)
Record AppComponent : Type := mkApp {
  knowledgeBase : string;
  question : string;
  generating : bool;
  error : option string;
  chatHistory : list ChatHistoryItem;
  showFollowUps : bool;
  showHistory : bool;
  showAbout : bool;
  outputFormat : OutputFormat;
  pdfToView : option File;
  selectedFiles : option (list File);
  processedFileNames : list string;
  processingFiles : bool;
  currentlyProcessingFile : option string;
  processingSuccess : option string;
  fileError : option string;
  isDraggingOver : bool
}.

(** The field initialisers of the class. *)
Definition initial : AppComponent :=
  {| knowledgeBase := ""; question := ""; generating := false; error := None;
     chatHistory := []; showFollowUps := true; showHistory := false;
     showAbout := false; outputFormat := Json; pdfToView := None;
     selectedFiles := None; processedFileNames := []; processingFiles := false;
     currentlyProcessingFile := None; processingSuccess := None;
     fileError := None; isDraggingOver := false |}.

(** [signal.set(v)], one function per signal the modelled methods write. *)
Definition set_knowledgeBase (v : string) (a : AppComponent) : AppComponent :=
  {| knowledgeBase := v; question := question a; generating := generating a;
     error := error a; chatHistory := chatHistory a; showFollowUps := showFollowUps a;
     showHistory := showHistory a; showAbout := showAbout a;
     outputFormat := outputFormat a; pdfToView := pdfToView a;
     selectedFiles := selectedFiles a; processedFileNames := processedFileNames a;
     processingFiles := processingFiles a;
     currentlyProcessingFile := currentlyProcessingFile a;
     processingSuccess := processingSuccess a; fileError := fileError a;
     isDraggingOver := isDraggingOver a |}.

Definition set_error (v : option string) (a : AppComponent) : AppComponent :=
  {| knowledgeBase := knowledgeBase a; question := question a; generating := generating a;
     error := v; chatHistory := chatHistory a; showFollowUps := showFollowUps a;
     showHistory := showHistory a; showAbout := showAbout a;
     outputFormat := outputFormat a; pdfToView := pdfToView a;
     selectedFiles := selectedFiles a; processedFileNames := processedFileNames a;
     processingFiles := processingFiles a;
     currentlyProcessingFile := currentlyProcessingFile a;
     processingSuccess := processingSuccess a; fileError := fileError a;
     isDraggingOver := isDraggingOver a |}.

Definition set_chatHistory (v : list ChatHistoryItem) (a : AppComponent) : AppComponent :=
  {| knowledgeBase := knowledgeBase a; question := question a; generating := generating a;
     error := error a; chatHistory := v; showFollowUps := showFollowUps a;
     showHistory := showHistory a; showAbout := showAbout a;
     outputFormat := outputFormat a; pdfToView := pdfToView a;
     selectedFiles := selectedFiles a; processedFileNames := processedFileNames a;
     processingFiles := processingFiles a;
     currentlyProcessingFile := currentlyProcessingFile a;
     processingSuccess := processingSuccess a; fileError := fileError a;
     isDraggingOver := isDraggingOver a |}.

Definition set_showHistory (v : bool) (a : AppComponent) : AppComponent :=
  {| knowledgeBase := knowledgeBase a; question := question a; generating := generating a;
     error := error a; chatHistory := chatHistory a; showFollowUps := showFollowUps a;
     showHistory := v; showAbout := showAbout a; outputFormat := outputFormat a;
     pdfToView := pdfToView a; selectedFiles := selectedFiles a;
     processedFileNames := processedFileNames a; processingFiles := processingFiles a;
     currentlyProcessingFile := currentlyProcessingFile a;
     processingSuccess := processingSuccess a; fileError := fileError a;
     isDraggingOver := isDraggingOver a |}.

Definition set_pdfToView (v : option File) (a : AppComponent) : AppComponent :=
  {| knowledgeBase := knowledgeBase a; question := question a; generating := generating a;
     error := error a; chatHistory := chatHistory a; showFollowUps := showFollowUps a;
     showHistory := showHistory a; showAbout := showAbout a;
     outputFormat := outputFormat a; pdfToView := v; selectedFiles := selectedFiles a;
     processedFileNames := processedFileNames a; processingFiles := processingFiles a;
     currentlyProcessingFile := currentlyProcessingFile a;
     processingSuccess := processingSuccess a; fileError := fileError a;
     isDraggingOver := isDraggingOver a |}.

Definition set_selectedFiles (v : option (list File)) (a : AppComponent) : AppComponent :=
  {| knowledgeBase := knowledgeBase a; question := question a; generating := generating a;
     error := error a; chatHistory := chatHistory a; showFollowUps := showFollowUps a;
     showHistory := showHistory a; showAbout := showAbout a;
     outputFormat := outputFormat a; pdfToView := pdfToView a; selectedFiles := v;
     processedFileNames := processedFileNames a; processingFiles := processingFiles a;
     currentlyProcessingFile := currentlyProcessingFile a;
     processingSuccess := processingSuccess a; fileError := fileError a;
     isDraggingOver := isDraggingOver a |}.

Definition set_processedFileNames (v : list string) (a : AppComponent) : AppComponent :=
  {| knowledgeBase := knowledgeBase a; question := question a; generating := generating a;
     error := error a; chatHistory := chatHistory a; showFollowUps := showFollowUps a;
     showHistory := showHistory a; showAbout := showAbout a;
     outputFormat := outputFormat a; pdfToView := pdfToView a;
     selectedFiles := selectedFiles a; processedFileNames := v;
     processingFiles := processingFiles a;
     currentlyProcessingFile := currentlyProcessingFile a;
     processingSuccess := processingSuccess a; fileError := fileError a;
     isDraggingOver := isDraggingOver a |}.

Definition set_processingFiles (v : bool) (a : AppComponent) : AppComponent :=
  {| knowledgeBase := knowledgeBase a; question := question a; generating := generating a;
     error := error a; chatHistory := chatHistory a; showFollowUps := showFollowUps a;
     showHistory := showHistory a; showAbout := showAbout a;
     outputFormat := outputFormat a; pdfToView := pdfToView a;
     selectedFiles := selectedFiles a; processedFileNames := processedFileNames a;
     processingFiles := v; currentlyProcessingFile := currentlyProcessingFile a;
     processingSuccess := processingSuccess a; fileError := fileError a;
     isDraggingOver := isDraggingOver a |}.

Definition set_currentlyProcessingFile (v : option string) (a : AppComponent) : AppComponent :=
  {| knowledgeBase := knowledgeBase a; question := question a; generating := generating a;
     error := error a; chatHistory := chatHistory a; showFollowUps := showFollowUps a;
     showHistory := showHistory a; showAbout := showAbout a;
     outputFormat := outputFormat a; pdfToView := pdfToView a;
     selectedFiles := selectedFiles a; processedFileNames := processedFileNames a;
     processingFiles := processingFiles a; currentlyProcessingFile := v;
     processingSuccess := processingSuccess a; fileError := fileError a;
     isDraggingOver := isDraggingOver a |}.

Definition set_processingSuccess (v : option string) (a : AppComponent) : AppComponent :=
  {| knowledgeBase := knowledgeBase a; question := question a; generating := generating a;
     error := error a; chatHistory := chatHistory a; showFollowUps := showFollowUps a;
     showHistory := showHistory a; showAbout := showAbout a;
     outputFormat := outputFormat a; pdfToView := pdfToView a;
     selectedFiles := selectedFiles a; processedFileNames := processedFileNames a;
     processingFiles := processingFiles a;
     currentlyProcessingFile := currentlyProcessingFile a; processingSuccess := v;
     fileError := fileError a; isDraggingOver := isDraggingOver a |}.

Definition set_fileError (v : option string) (a : AppComponent) : AppComponent :=
  {| knowledgeBase := knowledgeBase a; question := question a; generating := generating a;
     error := error a; chatHistory := chatHistory a; showFollowUps := showFollowUps a;
     showHistory := showHistory a; showAbout := showAbout a;
     outputFormat := outputFormat a; pdfToView := pdfToView a;
     selectedFiles := selectedFiles a; processedFileNames := processedFileNames a;
     processingFiles := processingFiles a;
     currentlyProcessingFile := currentlyProcessingFile a;
     processingSuccess := processingSuccess a; fileError := v;
     isDraggingOver := isDraggingOver a |}.

(** *** handleFiles *)

Definition isPdfName (f : File) : bool := endsWith (toLowerCase (name f)) ".pdf".

(** [Array.from(files).filter(file => !file.name.toLowerCase().endsWith('.pdf'))] *)
Definition nonPdfFiles (files : list File) : list File :=
  filter (fun f => negb (isPdfName f)) files.

Definition rejectionPrefix : string :=
  "Please upload only PDF files. The following files were ignored: ".

Definition rejectionMessage (files : list File) : string :=
  rejectionPrefix ++ join ", " (map name (nonPdfFiles files)).

(** [handleFiles(files: FileList | null)]; it is synchronous and calls nothing
    of the parser port. *)
Definition handleFiles (files : option (list File)) (a : AppComponent) : AppComponent :=
  match files with
  | None => a
  | Some [] => a
  | Some fs =>
      if (0 <? List.length (nonPdfFiles fs))%nat then
        set_selectedFiles None (set_fileError (Some (rejectionMessage fs)) a)
      else
        set_fileError None
          (set_error None
            (set_showHistory false
              (set_chatHistory []
                (set_processedFileNames []
                  (set_knowledgeBase ""
                    (set_processingSuccess None
                      (set_selectedFiles (Some fs)
                        (set_pdfToView None a))))))))
  end.

(** *** processFiles *)

(** The two locals of [processFiles]. *)
Record Locals : Type := mkLocals { combinedText : string; fileNames : list string }.

(** The parser-port call a suspended [processFiles] is waiting for. *)
Inductive Awaited : Type :=
| ArrayBufferOf (file : string)
| GetDocumentOf (file : string)
| GetPageOf (file : string) (i : nat)
| GetTextContentOf (file : string) (i : nat).

(** What can be seen each time [processFiles] is suspended at an [await]:
    the signals, the locals and the pending port call. *)
Record Snapshot : Type :=
  mkSnap { at_signals : AppComponent; at_locals : Locals; awaited : Awaited }.

(** [combinedText += pageText + '\n\n'] with
    [pageText = textContent.items.map(item => item.str).join(' ')]. *)
Definition appendPage (items : list string) (l : Locals) : Locals :=
  {| combinedText := combinedText l ++ (join " " items ++ LF ++ LF);
     fileNames := fileNames l |}.

(** [fileNames.push(file.name)] *)
Definition pushName (n : string) (l : Locals) : Locals :=
  {| combinedText := combinedText l; fileNames := fileNames l ++ [n] |}.

(** [for (let i = 1; i <= pdf.numPages; i++)] over the pages from [i] on.
    [None] is a thrown exception. *)
Fixpoint pagesLoop (a : AppComponent) (fname : string) (i : nat)
    (pages : list Page) (l : Locals) : list Snapshot * option Locals :=
  match pages with
  | [] => ([], Some l)
  | p :: rest =>
      let s1 := mkSnap a l (GetPageOf fname i) in
      let s2 := mkSnap a l (GetTextContentOf fname i) in
      match p with
      | GetPageRejects => ([s1], None)
      | GetTextContentRejects => ([s1; s2], None)
      | PageText items =>
          let (tr, r) := pagesLoop a fname (S i) rest (appendPage items l) in
          (s1 :: s2 :: tr, r)
      end
  end.

(** [for (const file of Array.from(files))]; returns the suspensions met, the
    signals when the loop is left, and the locals unless something threw. *)
Fixpoint filesLoop (a : AppComponent) (files : list File) (l : Locals)
    : list Snapshot * (AppComponent * option Locals) :=
  match files with
  | [] => ([], (a, Some l))
  | f :: rest =>
      let a1 := set_currentlyProcessingFile (Some (name f)) a in
      let l1 := pushName (name f) l in
      let s1 := mkSnap a1 l1 (ArrayBufferOf (name f)) in
      let s2 := mkSnap a1 l1 (GetDocumentOf (name f)) in
      match data f with
      | ArrayBufferRejects => ([s1], (a1, None))
      | GetDocumentRejects => ([s1; s2], (a1, None))
      | Pdf pages =>
          match pagesLoop a1 (name f) 1 pages l1 with
          | (tr, None) => (s1 :: s2 :: tr, (a1, None))
          | (tr, Some l2) =>
              let '(tr', out) := filesLoop a1 rest l2 in
              (s1 :: s2 :: tr ++ tr', out)
          end
      end
  end.

Definition successMessage (n : nat) : string :=
  "Successfully processed " ++ showNat n ++ " document(s).".

Definition readFailure : string :=
  "Failed to read or parse one or more PDF files. Please ensure they are valid and not corrupted.".

(** The statements of [processFiles] before its [try]. *)
Definition prologue (a : AppComponent) : AppComponent :=
  set_knowledgeBase ""
    (set_processingSuccess None
      (set_fileError None
        (set_chatHistory []
          (set_error None
            (set_processingFiles true
              (set_pdfToView None a)))))).

(** The end of the [try] block, after the loop. *)
Definition commit (files : list File) (l : Locals) (a : AppComponent) : AppComponent :=
  set_selectedFiles None
    (set_processingSuccess (Some (successMessage (List.length files)))
      (set_processedFileNames (fileNames l)
        (set_knowledgeBase (combinedText l) a))).

(** The [catch] block. *)
Definition onError (a : AppComponent) : AppComponent :=
  set_selectedFiles None (set_error (Some readFailure) a).

(** The [finally] block. *)
Definition epilogue (a : AppComponent) : AppComponent :=
  set_currentlyProcessingFile None (set_processingFiles false a).

(** [async processFiles()], run from its call to the settling of its promise
    with no other handler of the component running in between.  It returns the
    signals at the end and the suspensions it went through. *)
Definition processFiles (a : AppComponent) : AppComponent * list Snapshot :=
  match selectedFiles a with
  | None => (a, [])
  | Some [] => (a, [])
  | Some files =>
      match filesLoop (prologue a) files (mkLocals "" []) with
      | (tr, (a1, Some l)) => (epilogue (commit files l a1), tr)
      | (tr, (a1, None)) => (epilogue (onError a1), tr)
      end
  end.

(** [clearFiles()], the DOM reset of the file input apart. *)
Definition clearFiles (a : AppComponent) : AppComponent :=
  set_currentlyProcessingFile None
    (set_pdfToView None
      (set_showHistory false
        (set_chatHistory []
          (set_fileError None
            (set_knowledgeBase ""
              (set_processingSuccess None
                (set_processedFileNames []
                  (set_selectedFiles None a)))))))).

(** *** What a batch holds, for stating the properties *)

Definition pageReadable (p : Page) : bool :=
  match p with
  | PageText _ => true
  | _ => false
  end.

(** A file every port call succeeds on. *)
Definition readable (f : File) : bool :=
  match data f with
  | Pdf pages => forallb pageReadable pages
  | _ => false
  end.

(** The items of a page joined by a space, then two line feeds. *)
Definition pageText (p : Page) : string :=
  match p with
  | PageText items => join " " items ++ LF ++ LF
  | _ => ""
  end.

Fixpoint pagesText (pages : list Page) : string :=
  match pages with
  | [] => ""
  | p :: rest => pageText p ++ pagesText rest
  end.

Definition fileText (f : File) : string :=
  match data f with
  | Pdf pages => pagesText pages
  | _ => ""
  end.

(** The text of the files in order, each the text of its pages in order. *)
Fixpoint batchText (files : list File) : string :=
  match files with
  | [] => ""
  | f :: rest => fileText f ++ batchText rest
  end.

(** The file a suspended port call is about. *)
Definition awaitedFile (w : Awaited) : string :=
  match w with
  | ArrayBufferOf n | GetDocumentOf n | GetPageOf n _ | GetTextContentOf n _ => n
  end.

(** [sub] occurs in [s]. *)
Definition occursIn (sub s : string) : Prop :=
  exists pre post : string, s = (pre ++ sub ++ post)%string.

End App.

(** ** PdfViewerComponent: the document session and its renders *)

Module Viewer.
Import Port.

Local Open Scope Z_scope.

(** A [PDFDocumentProxy]: an identity, the file it was parsed from and its
    pages. *)
Record Doc : Type := mkDoc { doc_id : nat; doc_file : File; doc_pages : list Page }.

(** A pdf.js [RenderTask]: an identity and the page and scale it draws. *)
Record Task : Type :=
  mkTask { task_id : nat; task_doc : Doc; task_page : Z; task_scale : Q }.

(** The signals and private fields of the component.  The scale is a
    JavaScript number; the values it takes are 1.5 and what adding or taking
    off 0.25 makes of it between 0.5 and 3, all of them held and added exactly
    by binary floating point, so rationals compute the same values. *)
Record Component : Type := mkComp {
  isLoading : bool;
  error : option string;
  currentPage : Z;
  totalPages : Z;
  scale : Q;
  pdfDoc : option Doc;
  renderTask : option Task
}.

(** The canvas element: the task whose viewport gave it its width and height,
    and the task whose finished drawing it shows. *)
Record Canvas : Type := mkCanvas { viewport : option Task; image : option Task }.

(** Where an [async] method of the component is suspended. *)
Inductive Cont : Type :=
| LoadDestroy (f : File)                (* loadPdf: await this.pdfDoc.destroy() *)
| LoadArrayBuffer (f : File)            (* loadPdf: await file.arrayBuffer() *)
| LoadGetDocument (f : File)            (* loadPdf: await getDocument(..).promise *)
| RenderGetPage (d : Doc) (pageNum : Z) (* renderPage: await this.pdfDoc.getPage(pageNum) *)
| RenderPromise (t : Task).             (* renderPage: await this.renderTask.promise *)

(** A rejection that leaves an [async] method through no [catch]; no caller
    awaits [loadPdf] or [renderPage], so it ends as an unhandled rejection. *)
Inductive Rejection : Type :=
| GetPageRejected (d : Doc) (pageNum : Z)
| RenderingCancelled (t : Task)
| RenderFailed (t : Task).

(** The component with its surroundings: the canvas, the suspended methods
    (each under an identity), the next unused identity, and what has happened
    so far: the files [loadPdf] was called with, the documents pdf.js
    returned, the documents [destroy()] was called on and the tasks
    [cancel()] was called on (one entry per call), the unhandled rejections
    and the [console.error] lines. *)
Record World : Type := mkWorld {
  comp : Component;
  canvas : Canvas;
  pending : list (nat * Cont);
  fresh : nat;
  calls : list File;
  opened : list Doc;
  destroyed : list nat;
  cancelled : list nat;
  unhandled : list Rejection;
  console : list string
}.

(** Writing one signal or field. *)
Definition set_isLoading (v : bool) (c : Component) : Component :=
  {| isLoading := v; error := error c; currentPage := currentPage c;
     totalPages := totalPages c; scale := scale c; pdfDoc := pdfDoc c;
     renderTask := renderTask c |}.

Definition set_error (v : option string) (c : Component) : Component :=
  {| isLoading := isLoading c; error := v; currentPage := currentPage c;
     totalPages := totalPages c; scale := scale c; pdfDoc := pdfDoc c;
     renderTask := renderTask c |}.

Definition set_currentPage (v : Z) (c : Component) : Component :=
  {| isLoading := isLoading c; error := error c; currentPage := v;
     totalPages := totalPages c; scale := scale c; pdfDoc := pdfDoc c;
     renderTask := renderTask c |}.

Definition set_totalPages (v : Z) (c : Component) : Component :=
  {| isLoading := isLoading c; error := error c; currentPage := currentPage c;
     totalPages := v; scale := scale c; pdfDoc := pdfDoc c; renderTask := renderTask c |}.

Definition set_scale (v : Q) (c : Component) : Component :=
  {| isLoading := isLoading c; error := error c; currentPage := currentPage c;
     totalPages := totalPages c; scale := v; pdfDoc := pdfDoc c;
     renderTask := renderTask c |}.

Definition set_pdfDoc (v : option Doc) (c : Component) : Component :=
  {| isLoading := isLoading c; error := error c; currentPage := currentPage c;
     totalPages := totalPages c; scale := scale c; pdfDoc := v;
     renderTask := renderTask c |}.

Definition set_renderTask (v : option Task) (c : Component) : Component :=
  {| isLoading := isLoading c; error := error c; currentPage := currentPage c;
     totalPages := totalPages c; scale := scale c; pdfDoc := pdfDoc c; renderTask := v |}.

Definition with_comp (v : Component) (w : World) : World :=
  {| comp := v; canvas := canvas w; pending := pending w; fresh := fresh w;
     calls := calls w; opened := opened w; destroyed := destroyed w;
     cancelled := cancelled w; unhandled := unhandled w; console := console w |}.

Definition with_canvas (v : Canvas) (w : World) : World :=
  {| comp := comp w; canvas := v; pending := pending w; fresh := fresh w;
     calls := calls w; opened := opened w; destroyed := destroyed w;
     cancelled := cancelled w; unhandled := unhandled w; console := console w |}.

Definition with_pending (v : list (nat * Cont)) (w : World) : World :=
  {| comp := comp w; canvas := canvas w; pending := v; fresh := fresh w; calls := calls w;
     opened := opened w; destroyed := destroyed w; cancelled := cancelled w;
     unhandled := unhandled w; console := console w |}.

Definition with_fresh (v : nat) (w : World) : World :=
  {| comp := comp w; canvas := canvas w; pending := pending w; fresh := v;
     calls := calls w; opened := opened w; destroyed := destroyed w;
     cancelled := cancelled w; unhandled := unhandled w; console := console w |}.

Definition with_calls (v : list File) (w : World) : World :=
  {| comp := comp w; canvas := canvas w; pending := pending w; fresh := fresh w;
     calls := v; opened := opened w; destroyed := destroyed w; cancelled := cancelled w;
     unhandled := unhandled w; console := console w |}.

Definition with_opened (v : list Doc) (w : World) : World :=
  {| comp := comp w; canvas := canvas w; pending := pending w; fresh := fresh w;
     calls := calls w; opened := v; destroyed := destroyed w; cancelled := cancelled w;
     unhandled := unhandled w; console := console w |}.

Definition with_destroyed (v : list nat) (w : World) : World :=
  {| comp := comp w; canvas := canvas w; pending := pending w; fresh := fresh w;
     calls := calls w; opened := opened w; destroyed := v; cancelled := cancelled w;
     unhandled := unhandled w; console := console w |}.

Definition with_cancelled (v : list nat) (w : World) : World :=
  {| comp := comp w; canvas := canvas w; pending := pending w; fresh := fresh w;
     calls := calls w; opened := opened w; destroyed := destroyed w; cancelled := v;
     unhandled := unhandled w; console := console w |}.

Definition with_unhandled (v : list Rejection) (w : World) : World :=
  {| comp := comp w; canvas := canvas w; pending := pending w; fresh := fresh w;
     calls := calls w; opened := opened w; destroyed := destroyed w;
     cancelled := cancelled w; unhandled := v; console := console w |}.

Definition with_console (v : list string) (w : World) : World :=
  {| comp := comp w; canvas := canvas w; pending := pending w; fresh := fresh w;
     calls := calls w; opened := opened w; destroyed := destroyed w;
     cancelled := cancelled w; unhandled := unhandled w; console := v |}.

Definition upd (f : Component -> Component) (w : World) : World :=
  with_comp (f (comp w)) w.

Definition minScale : Q := 1 # 2.
Definition maxScale : Q := 3 # 1.
Definition defaultScale : Q := 3 # 2.
Definition scaleStep : Q := 1 # 4.

(** [x < y] on scales. *)
Definition Qltb (x y : Q) : bool := negb (Qle_bool y x).

(** The field initialisers of the class, an empty canvas, nothing pending. *)
Definition initial : World :=
  {| comp := {| isLoading := true; error := None; currentPage := 1; totalPages := 0;
                scale := defaultScale; pdfDoc := None; renderTask := None |};
     canvas := {| viewport := None; image := None |};
     pending := []; fresh := 0%nat; calls := []; opened := [];
     destroyed := []; cancelled := [];
     unhandled := []; console := [] |}.

(** Suspend at an [await]: the continuation waits under a new identity. *)
Definition spawn (k : Cont) (w : World) : World :=
  with_fresh (S (fresh w)) (with_pending (pending w ++ [(fresh w, k)]) w).

Definition destroy (d : Doc) (w : World) : World :=
  with_destroyed (destroyed w ++ [doc_id d]) w.

Definition cancel (t : Task) (w : World) : World :=
  with_cancelled (cancelled w ++ [task_id t]) w.

Definition isCancelled (t : Task) (w : World) : bool :=
  existsb (Nat.eqb (task_id t)) (cancelled w).

Definition reject (r : Rejection) (w : World) : World :=
  with_unhandled (unhandled w ++ [r]) w.

(** [renderPage(pageNum)] up to its first [await]. *)
Definition renderPage (pageNum : Z) (w : World) : World :=
  match pdfDoc (comp w) with
  | None => w
  | Some d =>
      if (pageNum <? 1) || (pageNum >? totalPages (comp w)) then w
      else
        let w1 := match renderTask (comp w) with
                  | Some t => cancel t w
                  | None => w
                  end in
        spawn (RenderGetPage d pageNum) w1
  end.

(** [renderPage] from the page to its second [await]: the canvas takes the
    size of the viewport at the scale read now (setting the width and height
    of a canvas blanks it), and the render task starts.  The canvas element
    and its 2d context are taken to exist. *)
Definition startRender (d : Doc) (pageNum : Z) (w : World) : World :=
  let t := mkTask (fresh w) d pageNum (scale (comp w)) in
  spawn (RenderPromise t)
    (upd (set_renderTask (Some t))
      (with_canvas {| viewport := Some t; image := None |}
        (with_fresh (S (fresh w)) w))).

(** [renderPage] after its second [await]. *)
Definition finishRender (t : Task) (w : World) : World :=
  upd (set_renderTask None)
    (with_canvas {| viewport := viewport (canvas w); image := Some t |} w).

(** The first statements of [loadPdf]. *)
Definition resetView (c : Component) : Component :=
  set_scale defaultScale
    (set_totalPages 0 (set_currentPage 1 (set_error None (set_isLoading true c)))).

(** [loadPdf(file)] up to its first [await]. *)
Definition loadPdf (f : File) (w : World) : World :=
  let w1 := upd resetView (with_calls (calls w ++ [f]) w) in
  match pdfDoc (comp w1) with
  | Some d => spawn (LoadDestroy f) (destroy d w1)
  | None => spawn (LoadArrayBuffer f) w1
  end.

Definition loadFailure : string := "Failed to load or parse the PDF file.".

(** The [catch] and [finally] blocks of [loadPdf]. *)
Definition loadFailed (w : World) : World :=
  upd (set_isLoading false)
    (upd (set_error (Some loadFailure))
      (with_console (console w ++ ["Error loading PDF:"]) w)).

(** The end of the [try] block of [loadPdf], then [finally]. *)
Definition loadDone (f : File) (pages : list Page) (w : World) : World :=
  let d := mkDoc (fresh w) f pages in
  let w1 := upd (set_totalPages (numPages pages))
              (upd (set_pdfDoc (Some d))
                (with_opened (opened w ++ [d]) (with_fresh (S (fresh w)) w))) in
  upd (set_isLoading false) (renderPage (currentPage (comp w1)) w1).

(** A suspended method goes on when the promise it awaits settles.  [ok] is
    the environment letting the operation succeed; the promise is fulfilled
    when moreover the file can be read, the bytes parsed, the task was not
    cancelled (pdf.js rejects the promise of a cancelled render task with
    [RenderingCancelledException]); [destroy()] is always fulfilled.
    Otherwise the promise is rejected: [loadPdf] catches inside its [try],
    [renderPage] has no handler. *)
Definition resume (k : Cont) (ok : bool) (w : World) : World :=
  match k with
  | LoadDestroy f => spawn (LoadArrayBuffer f) (upd (set_pdfDoc None) w)
  | LoadArrayBuffer f =>
      match ok, data f with
      | false, _ | true, ArrayBufferRejects => loadFailed w
      | true, _ => spawn (LoadGetDocument f) w
      end
  | LoadGetDocument f =>
      match ok, data f with
      | true, Pdf pages => loadDone f pages w
      | _, _ => loadFailed w
      end
  | RenderGetPage d pageNum =>
      if ok then startRender d pageNum w
      else reject (GetPageRejected d pageNum) w
  | RenderPromise t =>
      if isCancelled t w then reject (RenderingCancelled t) w
      else if ok then finishRender t w
      else reject (RenderFailed t) w
  end.

Definition nextPage (w : World) : World :=
  if currentPage (comp w) <? totalPages (comp w) then
    let w1 := upd (fun c => set_currentPage (currentPage c + 1) c) w in
    renderPage (currentPage (comp w1)) w1
  else w.

Definition prevPage (w : World) : World :=
  if currentPage (comp w) >? 1 then
    let w1 := upd (fun c => set_currentPage (currentPage c - 1) c) w in
    renderPage (currentPage (comp w1)) w1
  else w.

Definition zoomIn (w : World) : World :=
  if Qltb (scale (comp w)) maxScale then
    let w1 := upd (fun c => set_scale (Qmin maxScale (scale c + scaleStep)) c) w in
    renderPage (currentPage (comp w1)) w1
  else w.

Definition zoomOut (w : World) : World :=
  if Qltb minScale (scale (comp w)) then
    let w1 := upd (fun c => set_scale (Qmax minScale (scale c - scaleStep)) c) w in
    renderPage (currentPage (comp w1)) w1
  else w.

(** [ngOnDestroy()]: [this.pdfDoc?.destroy()]. *)
Definition ngOnDestroy (w : World) : World :=
  match pdfDoc (comp w) with
  | Some d => destroy d w
  | None => w
  end.

(** What happens next: the [file] input changes and the effect calls
    [loadPdf], a button is clicked, the component is torn down, or the
    promise awaited by a suspended method settles. *)
Inductive Label : Type :=
| Load (f : File)
| NextPage
| PrevPage
| ZoomIn
| ZoomOut
| NgOnDestroy
| Settle (id : nat) (ok : bool).

(** Take the continuation waiting under [id] out of the pending ones. *)
Fixpoint take (id : nat) (ps : list (nat * Cont)) : option (Cont * list (nat * Cont)) :=
  match ps with
  | [] => None
  | (i, k) :: rest =>
      if Nat.eqb i id then Some (k, rest)
      else match take id rest with
           | Some (k', rest') => Some (k', (i, k) :: rest')
           | None => None
           end
  end.

(** One turn of the event loop; [None] when nothing waits under the identity. *)
Definition step (l : Label) (w : World) : option World :=
  match l with
  | Load f => Some (loadPdf f w)
  | NextPage => Some (nextPage w)
  | PrevPage => Some (prevPage w)
  | ZoomIn => Some (zoomIn w)
  | ZoomOut => Some (zoomOut w)
  | NgOnDestroy => Some (ngOnDestroy w)
  | Settle id ok =>
      match take id (pending w) with
      | Some (k, rest) => Some (resume k ok (with_pending rest w))
      | None => None
      end
  end.

Fixpoint run (ls : list Label) (w : World) : option World :=
  match ls with
  | [] => Some w
  | l :: rest =>
      match step l w with
      | Some w' => run rest w'
      | None => None
      end
  end.

(** A run whose every turn obeys [rule]. *)
Fixpoint runUnder (rule : Label -> World -> bool) (ls : list Label) (w : World)
    : option World :=
  match ls with
  | [] => Some w
  | l :: rest =>
      if rule l w then
        match step l w with
        | Some w' => runUnder rule rest w'
        | None => None
        end
      else None
  end.

(** The worlds the component can be in when every turn obeys [rule]. *)
Inductive ReachableUnder (rule : Label -> World -> bool) : World -> Prop :=
| reach_initial : ReachableUnder rule initial
| reach_step (l : Label) (w w' : World) :
    ReachableUnder rule w -> rule l w = true -> step l w = Some w' ->
    ReachableUnder rule w'.

(** The worlds the component can be in. *)
Definition Reachable : World -> Prop := ReachableUnder (fun _ _ => true).

(** *** Loads one at a time *)

Definition isLoad (k : Cont) : bool :=
  match k with
  | LoadDestroy _ | LoadArrayBuffer _ | LoadGetDocument _ => true
  | RenderGetPage _ _ | RenderPromise _ => false
  end.

(** The suspended [loadPdf] calls. *)
Definition loadConts (w : World) : list Cont := filter isLoad (map snd (pending w)).

(** The number of [loadPdf] calls that have not settled. *)
Definition loadsPending (w : World) : nat := List.length (loadConts w).

(** [loadPdf] is only called when no earlier call is still running. *)
Definition oneAtATime (l : Label) (w : World) : bool :=
  match l with
  | Load _ => Nat.eqb (loadsPending w) 0
  | _ => true
  end.

(** Moreover the component is not torn down. *)
Definition oneAtATimeAlive (l : Label) (w : World) : bool :=
  match l with
  | NgOnDestroy => false
  | _ => oneAtATime l w
  end.

(** *** The view state *)

(** The scale is one of 0.5, 0.75, ..., 3.0. *)
Definition ScaleInv (s : Q) : Prop :=
  (minScale <= s <= maxScale)%Q /\ exists k : Z, (s == k # 4)%Q.

(** Once there are pages, the current page is one of them. *)
Definition PageInv (c : Component) : Prop :=
  0 < totalPages c -> 1 <= currentPage c <= totalPages c.

(** With at most one load running: while it runs the view is reset, and
    otherwise there are no pages, or the current page is one of them. *)
Definition SeqPage (w : World) : Prop :=
  match loadConts w with
  | [] => (totalPages (comp w) = 0 /\ currentPage (comp w) = 1)
          \/ 1 <= currentPage (comp w) <= totalPages (comp w)
  | [_] => totalPages (comp w) = 0 /\ currentPage (comp w) = 1
  | _ => False
  end.

(** The number of [destroy()] calls on a document. *)
Definition released (d : Doc) (w : World) : nat :=
  count_occ Nat.eq_dec (destroyed w) (doc_id d).

(** The file of the latest [loadPdf] call. *)
Definition latestCall (w : World) : option File := last (map Some (calls w)) None.

(** With at most one load running and the component alive: no document is
    destroyed twice, every document pdf.js returned is the attached one or
    was destroyed, and between loads the attached document is that of the
    latest call. *)
Definition SeqDocs (w : World) : Prop :=
  NoDup (destroyed w)
  /\ (forall id, In id (destroyed w) -> (id < fresh w)%nat)
  /\ (forall d, In d (opened w) -> (doc_id d < fresh w)%nat)
  /\ (forall d, In d (opened w) ->
        pdfDoc (comp w) = Some d \/ In (doc_id d) (destroyed w))
  /\ (forall d, pdfDoc (comp w) = Some d -> In d (opened w))
  /\ match loadConts w with
     | [] =>
         (calls w <> [] -> isLoading (comp w) = false)
         /\ forall d, pdfDoc (comp w) = Some d ->
              ~ In (doc_id d) (destroyed w)
              /\ latestCall w = Some (doc_file d)
              /\ totalPages (comp w) = numPages (doc_pages d)
     | [LoadDestroy f] =>
         latestCall w = Some f
         /\ forall d, pdfDoc (comp w) = Some d -> In (doc_id d) (destroyed w)
     | [LoadArrayBuffer f] | [LoadGetDocument f] =>
         latestCall w = Some f /\ pdfDoc (comp w) = None
     | _ => False
     end.

End Viewer.

(** ** Concrete batches *)

Module AppExamples.
Import Port Js App.

Definition a_pdf : File := mkFile "a.pdf" (Pdf [PageText ["one"]]).
Definition b_txt : File := mkFile "b.txt" (Pdf [PageText ["two"]]).
Definition c_pdf : File := mkFile "c.pdf" (Pdf [PageText ["three"]]).

(** [x.pdf] has two pages, of text "A" and "B"; [y.pdf] has one, of text "C". *)
Definition x_pdf : File := mkFile "x.pdf" (Pdf [PageText ["A"]; PageText ["B"]]).
Definition y_pdf : File := mkFile "y.pdf" (Pdf [PageText ["C"]]).

(** A [y.pdf] that pdf.js cannot parse. *)
Definition y_bad : File := mkFile "y.pdf" GetDocumentRejects.

(** Submitting a batch: it is staged by [handleFiles], then [processFiles]
    runs. *)
Definition submit (files : list File) (a : AppComponent) : AppComponent :=
  fst (processFiles (handleFiles (Some files) a)).

(** The component after [x.pdf] alone was submitted and extracted. *)
Definition after_first_batch : AppComponent := submit [x_pdf] initial.

Definition an_exchange : ChatHistoryItem :=
  {| item_question := "What is the delivery schedule?";
     item_result := {| answer := "Six weeks."; followUpQuestions := [] |} |}.

(** Signals holding a knowledge text and an exchange, with a batch selected
    whose second file cannot be parsed. *)
Definition selected_over_old : AppComponent :=
  set_selectedFiles (Some [x_pdf; y_bad])
    (set_chatHistory [an_exchange] (set_knowledgeBase "old" initial)).

(** [processFiles] on the staged [x.pdf], suspended at its first [await]. *)
Definition first_suspension : Snapshot :=
  mkSnap
    (set_currentlyProcessingFile (Some "x.pdf")
       (prologue (handleFiles (Some [x_pdf]) initial)))
    (mkLocals "" ["x.pdf"])
    (ArrayBufferOf "x.pdf").

End AppExamples.

(** ** Concrete documents and schedules *)

Module ViewerExamples.
Import Port Viewer.

(** [a.pdf] has one page, [b.pdf] has three. *)
Definition a_doc : File := mkFile "a.pdf" (Pdf [PageText ["a1"]]).
Definition b_doc : File :=
  mkFile "b.pdf" (Pdf [PageText ["b1"]; PageText ["b2"]; PageText ["b3"]]).

(** [b.pdf] is loaded and its first page drawn; nothing is pending. *)
Definition b_shown : list Label :=
  [Load b_doc; Settle 0 true; Settle 1 true; Settle 3 true; Settle 5 true].

(** Six clicks on zoom-in, from the default scale to the largest. *)
Definition zoomed_to_max : list Label :=
  [ZoomIn; ZoomIn; ZoomIn; ZoomIn; ZoomIn; ZoomIn].

(** [b.pdf] is shown and zoomed to the largest scale; no load is running. *)
Definition b_zoomed_to_max : list Label := b_shown ++ zoomed_to_max.

(** Then [a.pdf] is given to the viewer. *)
Definition reloaded_at_max : list Label := b_zoomed_to_max ++ [Load a_doc].

(** [a.pdf] then [b.pdf] are given to the viewer before [a.pdf] is read;
    [b.pdf] is read, parsed and drawn first. *)
Definition b_overtakes_a : list Label :=
  [Load a_doc; Load b_doc; Settle 1 true; Settle 2 true; Settle 4 true; Settle 6 true].

(** Then the user goes to page 3 of [b.pdf], and only then the load of
    [a.pdf] settles. *)
Definition a_lands_on_page_3 : list Label :=
  b_overtakes_a ++ [NextPage; NextPage; Settle 0 true; Settle 9 true].

(** Or the load of [a.pdf] settles right away and its first page is drawn. *)
Definition a_lands_and_draws : list Label :=
  b_overtakes_a ++ [Settle 0 true; Settle 7 true; Settle 9 true; Settle 11 true].

(** On [b.pdf] shown, two clicks on next before either page arrives; the
    pages arrive in order, page 3 is drawn first and page 2 after it. *)
Definition two_nexts : list Label :=
  b_shown ++ [NextPage; NextPage; Settle 6 true; Settle 7 true;
              Settle 11 true; Settle 9 true].

(** The same clicks and arrivals, when pdf.js refuses to draw page 3 on a
    canvas that the drawing of page 2 still uses. *)
Definition two_nexts_second_refused : list Label :=
  b_shown ++ [NextPage; NextPage; Settle 6 true; Settle 7 true;
              Settle 11 false; Settle 9 true].

(** On [b.pdf] shown, a zoom-in whose render has started when the second
    zoom-in is clicked. *)
Definition two_zooms : list Label :=
  b_shown ++ [ZoomIn; Settle 6 true; ZoomIn; Settle 8 true;
              Settle 9 true; Settle 11 true].

(** [a.pdf] is loaded and shown, then [b.pdf], one after the other. *)
Definition a_then_b : list Label :=
  [Load a_doc; Settle 0 true; Settle 1 true; Settle 3 true; Settle 5 true;
   Load b_doc; Settle 6 true; Settle 7 true; Settle 8 true].

(** [a.pdf] then [b.pdf] are given to the viewer before [a.pdf] is read;
    [a.pdf] is read and parsed first, [b.pdf] after it. *)
Definition a_settles_first : list Label :=
  [Load a_doc; Load b_doc; Settle 0 true; Settle 2 true; Settle 1 true; Settle 5 true].

(** The world a run from the initial one ends in. *)
Definition finalOf (ls : list Label) : World :=
  match run ls initial with
  | Some w => w
  | None => initial
  end.

(** The document pdf.js returns for [a.pdf] or [b.pdf] under an identity. *)
Definition a_handle (id : nat) : Doc := mkDoc id a_doc [PageText ["a1"]].
Definition b_handle (id : nat) : Doc :=
  mkDoc id b_doc [PageText ["b1"]; PageText ["b2"]; PageText ["b3"]].

(** The file a canvas shows a page of, and the page. *)
Definition shown (c : Canvas) : option (string * Z) :=
  match image c with
  | Some t => Some (name (doc_file (task_doc t)), task_page t)
  | None => None
  end.

End ViewerExamples.

(** ** More JavaScript string primitives *)

Module JsText.

(** A string is a sequence of the code units U+0000 to U+00FF.  Among them
    the white space and the line terminators of ECMAScript are TAB, LF, VT,
    FF, CR, the space and the no-break space U+00A0. *)
Definition isWhite (c : ascii) : bool :=
  let n := nat_of_ascii c in
  ((9 <=? n)%nat && (n <=? 13)%nat) || (n =? 32)%nat || (n =? 160)%nat.

(** Every character of the string is white space. *)
Fixpoint allWhite (s : string) : bool :=
  match s with
  | EmptyString => true
  | String c rest => isWhite c && allWhite rest
  end.

Fixpoint trimStart (s : string) : string :=
  match s with
  | EmptyString => EmptyString
  | String c rest => if isWhite c then trimStart rest else s
  end.

Fixpoint trimEnd (s : string) : string :=
  match s with
  | EmptyString => EmptyString
  | String c rest =>
      match trimEnd rest with
      | EmptyString => if isWhite c then EmptyString else String c EmptyString
      | rest' => String c rest'
      end
  end.

(** [String.prototype.trim]: the white space at the two ends is removed. *)
Definition trim (s : string) : string := trimEnd (trimStart s).

(** [String.prototype.includes]. *)
Fixpoint includes (s sub : string) : bool :=
  prefix sub s
  || match s with
     | EmptyString => false
     | String _ rest => includes rest sub
     end.

End JsText.

(** ** GeminiService: asking the model for a proposal *)

Module Gemini.
Import Js JsText App.

(** A thrown value: an [Error] with its message; [null]; [undefined]; or
    another value that is no [Error] and has no [message] (a string, a
    number, a plain object). *)
Inductive Thrown : Type :=
| ErrorOf (message : string)
| NotAnError
| NullThrown
| UndefinedThrown.

(** What [genAI.models.generateContent] does with a request: its promise is
    rejected, or fulfilled with a response whose [text] may be undefined. *)
Inductive Reply : Type :=
| Rejects (e : Thrown)
| Responds (text : option string).

(** What [JSON.parse] does with a text: it throws a [SyntaxError], or gives
    [null], or a value whose [answer] is a string or is missing and whose
    [followUpQuestions] are an array of strings or no array (the types of the
    response schema). *)
Inductive Parsing : Type :=
| SyntaxError (message : string)
| ParsedNull
| Parsed (answer : option string) (followUpQuestions : option (list string)).

(** The argument of [generateContent]; [withSchema] says that the JSON
    response schema is asked for. *)
Record Request : Type :=
  mkRequest { model : string; contents : string; withSchema : bool }.

(** The surroundings of the service: [process.env.API_KEY], the model
    behind the API and [JSON.parse]. *)
Record Backend : Type := mkBackend {
  apiKey : option string;
  generateContent : Request -> Reply;
  parseJson : string -> Parsing
}.

(** The settling of the promise of an [async] method. *)
Inductive Outcome (A : Type) : Type :=
| Returns (r : A)
| Throws (e : Thrown).

Arguments Returns {A} r.
Arguments Throws {A} e.

Definition missingKey : string :=
  "Google Gemini API Key is missing. Please ensure the API_KEY environment variable is set.".

Definition invalidKey : string :=
  "The provided Google Gemini API Key is invalid or has expired. Please check your environment configuration.".

Definition unavailable : string :=
  "Failed to generate proposal. The AI model may be temporarily unavailable or the request could not be processed.".

Definition badFormat : string := "AI response did not match the expected format.".

Definition undefinedTrim : string :=
  "Cannot read properties of undefined (reading 'trim')".

Definition nullAnswer : string :=
  "Cannot read properties of null (reading 'answer')".

Definition modelName : string := "gemini-2.5-flash".

(** The indentation of the lines of the template literals. *)
Definition ind : string := "          ".

(** The template literals up to the last paragraph. *)
Definition promptBody (context question : string) : string :=
  LF ++ ind ++ "**Context:**" ++ LF ++ ind ++ context ++ LF ++ LF
  ++ ind ++ "---" ++ LF ++ LF
  ++ ind ++ "**Question:**" ++ LF ++ ind ++ question ++ LF ++ LF
  ++ ind ++ "---" ++ LF ++ LF ++ ind.

Definition jsonPrompt (context question : string) : string :=
  promptBody context question
  ++ "Based *only* on the provided context, perform the following two tasks:" ++ LF
  ++ ind ++ "1.  Provide a professional and detailed answer to the question." ++ LF
  ++ ind ++ "2.  Generate exactly three relevant follow-up questions that could be asked next based on the context."
  ++ LF ++ "        ".

Definition formatInstruction (format : OutputFormat) : string :=
  match format with
  | Markdown =>
      "Provide a professional and detailed answer in Markdown format. Include a main answer and, if relevant, a list of potential follow-up questions."
  | _ => "Provide a professional and detailed answer in plain text format."
  end.

Definition plainPrompt (context question : string) (format : OutputFormat) : string :=
  promptBody context question
  ++ "Based *only* on the provided context, " ++ formatInstruction format
  ++ LF ++ "        ".

(** [!s] on a string that may be undefined. *)
Definition falsy (s : option string) : bool :=
  match s with
  | None => true
  | Some s => (s =? "")%string
  end.

(** The one request [generateProposal] sends. *)
Definition requestFor (context question : string) (format : OutputFormat) : Request :=
  match format with
  | Json => mkRequest modelName (jsonPrompt context question) true
  | _ => mkRequest modelName (plainPrompt context question format) false
  end.

(** The [try] block of [generateProposal]; a thrown value is on the left. *)
Definition attempt (b : Backend) (context question : string) (format : OutputFormat)
    : Thrown + ProposalResult :=
  match format with
  | Json =>
      match generateContent b (requestFor context question format) with
      | Rejects e => inl e
      | Responds None => inl (ErrorOf undefinedTrim)
      | Responds (Some text) =>
          match parseJson b (trim text) with
          | SyntaxError m => inl (ErrorOf m)
          | ParsedNull => inl (ErrorOf nullAnswer)
          | Parsed a fs =>
              match a, fs with
              | Some a, Some fs =>
                  if (a =? "")%string then inl (ErrorOf badFormat)
                  else inr {| answer := a; followUpQuestions := fs |}
              | _, _ => inl (ErrorOf badFormat)
              end
          end
      end
  | _ =>
      match generateContent b (requestFor context question format) with
      | Rejects e => inl e
      | Responds None => inl (ErrorOf undefinedTrim)
      | Responds (Some text) => inr {| answer := trim text; followUpQuestions := [] |}
      end
  end.

(** The [catch] block of [generateProposal]. *)
Definition remap (e : Thrown) : Thrown :=
  match e with
  | ErrorOf m =>
      if includes m "API key not valid" then ErrorOf invalidKey else ErrorOf unavailable
  | NotAnError | NullThrown | UndefinedThrown => ErrorOf unavailable
  end.

(** [async generateProposal(context, question, format)]. *)
Definition generateProposal (b : Backend) (context question : string)
    (format : OutputFormat) : Outcome ProposalResult :=
  if falsy (apiKey b) then Throws (ErrorOf missingKey)
  else
    match attempt b context question format with
    | inr r => Returns r
    | inl e => Throws (remap e)
    end.

End Gemini.

(** ** AppComponent: asking, viewing and exporting *)

Module AppRest.
Import Port Js JsText App Gemini.

Local Open Scope string_scope.

(** [signal.set(v)] for the other signals. *)
Definition set_question (v : string) (a : AppComponent) : AppComponent :=
  {| knowledgeBase := knowledgeBase a; question := v; generating := generating a;
     error := error a; chatHistory := chatHistory a; showFollowUps := showFollowUps a;
     showHistory := showHistory a; showAbout := showAbout a;
     outputFormat := outputFormat a; pdfToView := pdfToView a;
     selectedFiles := selectedFiles a; processedFileNames := processedFileNames a;
     processingFiles := processingFiles a;
     currentlyProcessingFile := currentlyProcessingFile a;
     processingSuccess := processingSuccess a; fileError := fileError a;
     isDraggingOver := isDraggingOver a |}.

Definition set_generating (v : bool) (a : AppComponent) : AppComponent :=
  {| knowledgeBase := knowledgeBase a; question := question a; generating := v;
     error := error a; chatHistory := chatHistory a; showFollowUps := showFollowUps a;
     showHistory := showHistory a; showAbout := showAbout a;
     outputFormat := outputFormat a; pdfToView := pdfToView a;
     selectedFiles := selectedFiles a; processedFileNames := processedFileNames a;
     processingFiles := processingFiles a;
     currentlyProcessingFile := currentlyProcessingFile a;
     processingSuccess := processingSuccess a; fileError := fileError a;
     isDraggingOver := isDraggingOver a |}.

Definition set_showFollowUps (v : bool) (a : AppComponent) : AppComponent :=
  {| knowledgeBase := knowledgeBase a; question := question a; generating := generating a;
     error := error a; chatHistory := chatHistory a; showFollowUps := v;
     showHistory := showHistory a; showAbout := showAbout a;
     outputFormat := outputFormat a; pdfToView := pdfToView a;
     selectedFiles := selectedFiles a; processedFileNames := processedFileNames a;
     processingFiles := processingFiles a;
     currentlyProcessingFile := currentlyProcessingFile a;
     processingSuccess := processingSuccess a; fileError := fileError a;
     isDraggingOver := isDraggingOver a |}.

Definition set_showAbout (v : bool) (a : AppComponent) : AppComponent :=
  {| knowledgeBase := knowledgeBase a; question := question a; generating := generating a;
     error := error a; chatHistory := chatHistory a; showFollowUps := showFollowUps a;
     showHistory := showHistory a; showAbout := v; outputFormat := outputFormat a;
     pdfToView := pdfToView a; selectedFiles := selectedFiles a;
     processedFileNames := processedFileNames a; processingFiles := processingFiles a;
     currentlyProcessingFile := currentlyProcessingFile a;
     processingSuccess := processingSuccess a; fileError := fileError a;
     isDraggingOver := isDraggingOver a |}.

Definition set_outputFormat (v : OutputFormat) (a : AppComponent) : AppComponent :=
  {| knowledgeBase := knowledgeBase a; question := question a; generating := generating a;
     error := error a; chatHistory := chatHistory a; showFollowUps := showFollowUps a;
     showHistory := showHistory a; showAbout := showAbout a; outputFormat := v;
     pdfToView := pdfToView a; selectedFiles := selectedFiles a;
     processedFileNames := processedFileNames a; processingFiles := processingFiles a;
     currentlyProcessingFile := currentlyProcessingFile a;
     processingSuccess := processingSuccess a; fileError := fileError a;
     isDraggingOver := isDraggingOver a |}.

Definition set_isDraggingOver (v : bool) (a : AppComponent) : AppComponent :=
  {| knowledgeBase := knowledgeBase a; question := question a; generating := generating a;
     error := error a; chatHistory := chatHistory a; showFollowUps := showFollowUps a;
     showHistory := showHistory a; showAbout := showAbout a;
     outputFormat := outputFormat a; pdfToView := pdfToView a;
     selectedFiles := selectedFiles a; processedFileNames := processedFileNames a;
     processingFiles := processingFiles a;
     currentlyProcessingFile := currentlyProcessingFile a;
     processingSuccess := processingSuccess a; fileError := fileError a;
     isDraggingOver := v |}.

(** [isFormInvalid]. *)
Definition isFormInvalid (a : AppComponent) : bool :=
  (String.length (trim (knowledgeBase a)) =? 0)%nat
  || (String.length (trim (question a)) <? 10)%nat
  || generating a.

(** [latestResult]: [chatHistory()[0] ?? null]. *)
Definition latestResult (a : AppComponent) : option ChatHistoryItem :=
  match chatHistory a with
  | [] => None
  | item :: _ => Some item
  end.

(** [history]: [chatHistory().slice(1)]. *)
Definition history (a : AppComponent) : list ChatHistoryItem := tl (chatHistory a).

Definition unknownError : string := "An unknown error occurred.".

Definition nullMessage : string :=
  "Cannot read properties of null (reading 'message')".

Definition undefinedMessage : string :=
  "Cannot read properties of undefined (reading 'message')".

(** [e.message || 'An unknown error occurred.']: the text to show, on the
    right; reading [message] of [null] or [undefined] throws a [TypeError],
    on the left. *)
Definition messageOr (e : Thrown) : Thrown + string :=
  match e with
  | ErrorOf m => inr (if (m =? "")%string then unknownError else m)
  | NotAnError => inr unknownError
  | NullThrown => inl (ErrorOf nullMessage)
  | UndefinedThrown => inl (ErrorOf undefinedMessage)
  end.

(** [async generate()], run from its call to the settling of its promise with
    no other handler of the component running in between; [out] is how the
    promise of [generateProposal] settles.  The signals when the promise of
    [generate()] has settled: when the [catch] block throws, [error] is not
    set and the [finally] block runs all the same. *)
Definition generate (out : Outcome ProposalResult) (a : AppComponent) : AppComponent :=
  if isFormInvalid a then a
  else
    let a1 := set_error None (set_generating true (set_pdfToView None a)) in
    let a2 :=
      match out with
      | Returns r =>
          set_showFollowUps true
            (set_chatHistory
               ({| item_question := question a1; item_result := r |} :: chatHistory a1)
               a1)
      | Throws e =>
          match messageOr e with
          | inr m => set_error (Some m) a1
          | inl _ => a1
          end
      end in
    set_generating false a2.

(** The value the promise of [generate()] is rejected with: the one the
    [catch] block throws, when it does; otherwise the promise is fulfilled. *)
Definition generateRejects (out : Outcome ProposalResult) (a : AppComponent)
    : option Thrown :=
  if isFormInvalid a then None
  else
    match out with
    | Returns _ => None
    | Throws e =>
        match messageOr e with
        | inr _ => None
        | inl t => Some t
        end
    end.

(** [generate()] with the service of the repository behind it. *)
Definition generateWith (b : Backend) (a : AppComponent) : AppComponent :=
  generate (generateProposal b (knowledgeBase a) (question a) (outputFormat a)) a.

(** [onDragOver] and [onDragLeave], [preventDefault] apart. *)
Definition onDragOver (a : AppComponent) : AppComponent := set_isDraggingOver true a.
Definition onDragLeave (a : AppComponent) : AppComponent := set_isDraggingOver false a.

(** [onDrop]: [files] is [event.dataTransfer?.files]. *)
Definition onDrop (files : option (list File)) (a : AppComponent) : AppComponent :=
  let a1 := set_isDraggingOver false a in
  match files with
  | Some fs => handleFiles (Some fs) a1
  | None => a1
  end.

(** [onFileSelected]: [files] is [input.files]. *)
Definition onFileSelected (files : option (list File)) (a : AppComponent) : AppComponent :=
  handleFiles files a.

Definition viewPdf (f : File) (a : AppComponent) : AppComponent :=
  set_pdfToView (Some f)
    (set_processingFiles false
      (set_generating false (set_error None (set_chatHistory [] a)))).

Definition onQuestionInput (value : string) (a : AppComponent) : AppComponent :=
  set_question value a.

Definition onFormatChange (format : OutputFormat) (a : AppComponent) : AppComponent :=
  set_outputFormat format a.

Definition toggleFollowUps (a : AppComponent) : AppComponent :=
  set_showFollowUps (negb (showFollowUps a)) a.

Definition toggleHistory (a : AppComponent) : AppComponent :=
  set_showHistory (negb (showHistory a)) a.

Definition toggleAbout (a : AppComponent) : AppComponent :=
  set_showAbout (negb (showAbout a)) a.

(** The text [downloadResult()] puts in the file, when there is a latest
    result. *)
Definition resultContent (a : AppComponent) : option string :=
  match latestResult a with
  | None => None
  | Some item =>
      let content :=
        "RFP Question:" ++ LF ++ item_question item ++ LF ++ LF ++ "---" ++ LF ++ LF
        ++ "Generated Answer:" ++ LF ++ answer (item_result item) in
      Some
        (if (0 <? List.length (followUpQuestions (item_result item)))%nat
         then content ++ LF ++ LF ++ "---" ++ LF ++ LF
              ++ "Suggested Follow-up Questions:" ++ LF ++ "- "
              ++ join (LF ++ "- ") (followUpQuestions (item_result item))
         else content)
  end.

Definition turnRule : string := "--- --- ---" ++ LF ++ LF.

(** One round of the [forEach] of [downloadHistory()]: the text added for
    the item at [index] of [total]. *)
Definition turnText (total index : nat) (item : ChatHistoryItem) : string :=
  "Conversation Turn " ++ showNat (index + 1) ++ LF
  ++ "-------------------------" ++ LF ++ LF
  ++ "RFP Question:" ++ LF ++ item_question item ++ LF ++ LF
  ++ "Generated Answer:" ++ LF ++ answer (item_result item) ++ LF ++ LF
  ++ (if (0 <? List.length (followUpQuestions (item_result item)))%nat
      then "Suggested Follow-up Questions:" ++ LF ++ "- "
           ++ join (LF ++ "- ") (followUpQuestions (item_result item)) ++ LF ++ LF
      else "")
  ++ (if (index <? total - 1)%nat then turnRule else "").

(** The [forEach] from [index] on. *)
Fixpoint turnsText (total index : nat) (items : list ChatHistoryItem) : string :=
  match items with
  | [] => ""
  | item :: rest => turnText total index item ++ turnsText total (S index) rest
  end.

(** What [downloadHistory()] writes before the [forEach]; [now] is
    [new Date().toLocaleString()]. *)
Definition historyHeader (now : string) : string :=
  "RFP-Genius Conversation History" ++ LF ++ LF
  ++ "Generated on: " ++ now ++ LF
  ++ turnRule.

(** The text [downloadHistory()] puts in the file, when the history is not
    empty. *)
Definition historyContent (now : string) (a : AppComponent) : option string :=
  match chatHistory a with
  | [] => None
  | h => Some (historyHeader now ++ turnsText (List.length h) 0 (rev h))
  end.

End AppRest.

(** ** PdfViewerComponent: more of the session *)

Module ViewerMore.
Import Port Viewer.

Local Open Scope Z_scope.

(** A button clicked [n] times in a row. *)
Definition clicks (n : nat) (button : World -> World) (w : World) : World :=
  Nat.iter n button w.

(** The drawing on the canvas is that of a task that was not cancelled and
    is not the tracked one. *)
Definition ShownInv (w : World) : Prop :=
  forall t0, image (canvas w) = Some t0 ->
    isCancelled t0 w = false
    /\ forall t, renderTask (comp w) = Some t -> task_id t <> task_id t0.

(** Identities in use are below the next unused one. *)
Definition IdsInv (w : World) : Prop :=
  (forall id, In id (destroyed w) -> (id < fresh w)%nat)
  /\ (forall d, pdfDoc (comp w) = Some d -> (doc_id d < fresh w)%nat).

(** With at most one load running: while it runs the component is loading,
    shows no error and has no page count, and once the old document is
    destroyed none is attached; between loads an error means that no document
    is attached and there is no page count. *)
Definition StatusInv (w : World) : Prop :=
  match loadConts w with
  | [] =>
      (calls w <> [] -> isLoading (comp w) = false)
      /\ (error (comp w) <> None ->
          pdfDoc (comp w) = None /\ totalPages (comp w) = 0)
  | [k] =>
      isLoading (comp w) = true
      /\ error (comp w) = None
      /\ totalPages (comp w) = 0
      /\ match k with
         | LoadDestroy _ => True
         | _ => pdfDoc (comp w) = None
         end
  | _ => False
  end.

End ViewerMore.

(** ** More concrete inputs *)

Module MoreExamples.
Import Port Js JsText App Gemini AppRest AppExamples Viewer ViewerExamples.

Local Open Scope string_scope.

(** A file whose extension is in capitals. *)
Definition report_PDF : File := mkFile "Report.PDF" (Pdf [PageText ["r"]]).

(** Two documents without a page. *)
Definition blank1 : File := mkFile "blank1.pdf" (Pdf []).
Definition blank2 : File := mkFile "blank2.pdf" (Pdf []).

(** The component after [x.pdf] was extracted and a question typed. *)
Definition ready_to_ask : AppComponent :=
  set_question "What is the delivery schedule?" after_first_batch.

Definition a_result : ProposalResult :=
  {| answer := "Six weeks."; followUpQuestions := ["And the price?"] |}.

(** The component after one exchange was made. *)
Definition asked_once : AppComponent := generate (Returns a_result) ready_to_ask.

(** A service without an API key; the model would answer. *)
Definition no_key : Backend :=
  mkBackend None (fun _ => Responds (Some "fine")) (fun _ => ParsedNull).

(** A service whose model answers in a JSON that lacks the answer. *)
Definition answerless : Backend :=
  mkBackend (Some "k") (fun _ => Responds (Some "{}")) (fun _ => Parsed None (Some [])).

(** The no-break space U+00A0. *)
Definition NBSP : string := String (ascii_of_nat 160) EmptyString.

(** A service whose model answers in plain text, with a no-break space
    before and a no-break space and a line feed after. *)
Definition nbsp_model : Backend :=
  mkBackend (Some "k")
    (fun _ => Responds (Some (NBSP ++ " Six weeks." ++ NBSP ++ LF)))
    (fun _ => ParsedNull).

(** A file that pdf.js cannot parse, and the viewer given it. *)
Definition bad_doc : File := mkFile "bad.pdf" GetDocumentRejects.
Definition bad_load : list Label := [Load bad_doc; Settle 0 true; Settle 1 true].

(** [b.pdf] is given to the viewer and read; its parse is still awaited. *)
Definition b_parsing : list Label := [Load b_doc; Settle 0 true].

End MoreExamples.

(** * Properties of the extraction pipeline *)

Module AppSpec.
Import Port Js App AppExamples.

Local Open Scope string_scope.

(** ** Strings *)

Lemma append_assoc (s t u : string) : (s ++ t) ++ u = s ++ (t ++ u).
Proof. induction s as [|c s IH]; simpl; [reflexivity | now rewrite IH]. Qed.

Lemma append_nil_r (s : string) : s ++ "" = s.
Proof. induction s as [|c s IH]; simpl; [reflexivity | now rewrite IH]. Qed.

Lemma occursIn_refl (s : string) : occursIn s s.
Proof. exists "", "". simpl. now rewrite append_nil_r. Qed.

Lemma occursIn_app_l (x s t : string) : occursIn x s -> occursIn x (s ++ t).
Proof.
  intros (pre & post & ->). exists pre, (post ++ t).
  now rewrite !append_assoc.
Qed.

Lemma occursIn_app_r (x s t : string) : occursIn x t -> occursIn x (s ++ t).
Proof.
  intros (pre & post & ->). exists (s ++ pre), post.
  now rewrite !append_assoc.
Qed.

(** Every element of an array occurs in its [join]. *)
Lemma occursIn_join (sep x : string) (xs : list string) :
  In x xs -> occursIn x (join sep xs).
Proof.
  induction xs as [|y ys IH]; intros Hin; [contradiction|].
  destruct Hin as [->|Hin].
  - destruct ys as [|z zs]; simpl.
    + apply occursIn_refl.
    + apply occursIn_app_l, occursIn_refl.
  - destruct ys as [|z zs]; [contradiction|].
    change (join sep (y :: z :: zs)) with (y ++ sep ++ join sep (z :: zs)).
    now apply occursIn_app_r, occursIn_app_r, IH.
Qed.

(** ** handleFiles *)

Lemma nonPdfFiles_In (f : File) (fs : list File) :
  In f (nonPdfFiles fs) <-> In f fs /\ isPdfName f = false.
Proof.
  unfold nonPdfFiles. rewrite filter_In.
  destruct (isPdfName f); simpl; intuition congruence.
Qed.

Lemma handleFiles_rejects (a : AppComponent) (fs : list File) :
  (exists f, In f fs /\ isPdfName f = false) ->
  handleFiles (Some fs) a
  = set_selectedFiles None (set_fileError (Some (rejectionMessage fs)) a).
Proof.
  intros (f & Hin & Hf).
  assert (Hn : In f (nonPdfFiles fs)) by now apply nonPdfFiles_In.
  unfold handleFiles. destruct fs as [|g gs]; [contradiction|].
  destruct (nonPdfFiles (g :: gs)) as [|h hs] eqn:E; [contradiction|].
  reflexivity.
Qed.

Lemma handleFiles_accepts (a : AppComponent) (fs : list File) :
  fs <> [] -> forallb isPdfName fs = true ->
  selectedFiles (handleFiles (Some fs) a) = Some fs
  /\ knowledgeBase (handleFiles (Some fs) a) = ""
  /\ processedFileNames (handleFiles (Some fs) a) = [].
Proof.
  intros Hne Hall.
  assert (E : nonPdfFiles fs = []).
  { unfold nonPdfFiles. clear Hne. induction fs as [|g gs IH]; [reflexivity|].
    simpl in *. apply andb_prop in Hall as [Hg Hgs]. rewrite Hg. simpl. auto. }
  unfold handleFiles. destruct fs as [|g gs]; [congruence|].
  rewrite E. simpl. auto.
Qed.

(** C3. Batch validation is atomic.  When some submitted file has no [.pdf]
    extension, [handleFiles] rejects the whole batch: it only writes the
    error and clears the selection, so the knowledge text is as it was; the
    message lists every rejected name; and since [handleFiles] calls nothing
    of the parser port and leaves no selection, a following [processFiles]
    makes no port call either. *)
Theorem C3_batch_validation_is_atomic (a : AppComponent) (fs : list File) :
  (exists f, In f fs /\ isPdfName f = false) ->
  let a' := handleFiles (Some fs) a in
  a' = set_selectedFiles None (set_fileError (Some (rejectionMessage fs)) a)
  /\ selectedFiles a' = None
  /\ knowledgeBase a' = knowledgeBase a
  /\ processedFileNames a' = processedFileNames a
  /\ fileError a' = Some (rejectionMessage fs)
  /\ (forall f, In f fs -> isPdfName f = false ->
        occursIn (name f) (rejectionMessage fs))
  /\ processFiles a' = (a', []).
Proof.
  intros Hbad a'. subst a'. rewrite (handleFiles_rejects a fs Hbad).
  repeat split; try reflexivity.
  intros f Hin Hf. unfold rejectionMessage.
  apply occursIn_app_r, occursIn_join, in_map. now apply nonPdfFiles_In.
Qed.

Lemma C3_witness :
  let a' := handleFiles (Some [a_pdf; b_txt; c_pdf]) initial in
  selectedFiles a' = None
  /\ fileError a'
     = Some "Please upload only PDF files. The following files were ignored: b.txt"
  /\ processFiles a' = (a', []).
Proof.
  assert (H : exists f, In f [a_pdf; b_txt; c_pdf] /\ isPdfName f = false).
  { exists b_txt. split; [simpl; auto | reflexivity]. }
  pose proof (C3_batch_validation_is_atomic initial [a_pdf; b_txt; c_pdf] H) as P.
  cbv zeta in P. destruct P as (_ & P2 & _ & _ & P5 & _ & P7).
  repeat split; assumption.
Defined.

(** ** The loops of processFiles *)

Lemma locals_eta (l : Locals) : mkLocals (combinedText l) (fileNames l) = l.
Proof. now destruct l. Qed.

Lemma set_current_same (a : AppComponent) :
  set_currentlyProcessingFile (currentlyProcessingFile a) a = a.
Proof. now destruct a. Qed.

(** The page loop ends normally exactly when every page can be read, and then
    it has appended the text of the pages in order. *)
Lemma pagesLoop_result (a : AppComponent) (fname : string) (pages : list Page) :
  forall (i : nat) (l : Locals),
    snd (pagesLoop a fname i pages l)
    = if forallb pageReadable pages
      then Some (mkLocals (combinedText l ++ pagesText pages) (fileNames l))
      else None.
Proof.
  induction pages as [|p rest IH]; intros i l; simpl.
  - now rewrite append_nil_r, locals_eta.
  - destruct p as [| |items]; simpl; try reflexivity.
    specialize (IH (S i) (appendPage items l)).
    destruct (pagesLoop a fname (S i) rest (appendPage items l)) as [tr r].
    simpl in *. rewrite IH. destruct (forallb pageReadable rest); [|reflexivity].
    now rewrite append_assoc.
Qed.

(** While the pages of a file are read, the signals and the name list stay
    what they were when the loop was entered. *)
Lemma pagesLoop_snapshots (a : AppComponent) (fname : string) (pages : list Page) :
  forall (i : nat) (l : Locals) (s : Snapshot),
    In s (fst (pagesLoop a fname i pages l)) ->
    at_signals s = a
    /\ fileNames (at_locals s) = fileNames l
    /\ awaitedFile (awaited s) = fname.
Proof.
  induction pages as [|p rest IH]; intros i l s Hin; simpl in Hin; [contradiction|].
  destruct p as [| |items]; simpl in Hin.
  - destruct Hin as [<-|[]]. auto.
  - destruct Hin as [<-|[<-|[]]]; auto.
  - specialize (IH (S i) (appendPage items l) s).
    destruct (pagesLoop a fname (S i) rest (appendPage items l)) as [tr r].
    simpl in *. destruct Hin as [<-|[<-|Hin]]; auto.
Qed.

(** The file loop ends normally exactly when every file is readable, and then
    the locals hold the text of the batch and the names of its files. *)
Lemma filesLoop_result (files : list File) :
  forall (a : AppComponent) (l : Locals),
    snd (snd (filesLoop a files l))
    = if forallb readable files
      then Some (mkLocals (combinedText l ++ batchText files)
                          (fileNames l ++ map name files)%list)
      else None.
Proof.
  induction files as [|f rest IH]; intros a l; simpl.
  - now rewrite append_nil_r, app_nil_r, locals_eta.
  - unfold readable at 1, fileText. destruct (data f) as [| |pages]; simpl; try reflexivity.
    pose proof (pagesLoop_result (set_currentlyProcessingFile (Some (name f)) a)
                  (name f) pages 1 (pushName (name f) l)) as Hp.
    destruct (pagesLoop _ (name f) 1 pages (pushName (name f) l)) as [tr [l2|]];
      simpl in Hp; destruct (forallb pageReadable pages); try discriminate.
    + injection Hp as ->.
      specialize (IH (set_currentlyProcessingFile (Some (name f)) a)
                     (mkLocals ((combinedText l ++ pagesText pages))
                               (fileNames l ++ [name f])%list)).
      destruct (filesLoop _ rest _) as [tr' out]. simpl in *.
      rewrite IH. destruct (forallb readable rest); [|reflexivity].
      now rewrite append_assoc, <- app_assoc.
    + reflexivity.
Qed.

(** The file loop writes no signal but [currentlyProcessingFile]. *)
Lemma filesLoop_signals (files : list File) :
  forall (a : AppComponent) (l : Locals),
    exists c, fst (snd (filesLoop a files l)) = set_currentlyProcessingFile c a.
Proof.
  induction files as [|f rest IH]; intros a l; simpl.
  - exists (currentlyProcessingFile a). now rewrite set_current_same.
  - destruct (data f) as [| |pages]; simpl; try (now eexists).
    destruct (pagesLoop _ (name f) 1 pages (pushName (name f) l)) as [tr [l2|]];
      simpl; [|now eexists].
    destruct (IH (set_currentlyProcessingFile (Some (name f)) a) l2) as [c Hc].
    destruct (filesLoop _ rest l2) as [tr' out]. simpl in *.
    exists c. rewrite Hc. reflexivity.
Qed.

(** At every suspension of the file loop, the signals differ from those at
    its entry in [currentlyProcessingFile] only, that signal names the file
    the awaited port call is about, and the local name list holds the names
    of the files begun so far, the one being read included. *)
Lemma filesLoop_snapshots (files : list File) :
  forall (a : AppComponent) (l : Locals) (s : Snapshot),
    In s (fst (filesLoop a files l)) ->
    exists (pre : list File) (f : File) (post : list File),
      files = (pre ++ f :: post)%list
      /\ at_signals s = set_currentlyProcessingFile (Some (name f)) a
      /\ awaitedFile (awaited s) = name f
      /\ fileNames (at_locals s) = (fileNames l ++ map name (pre ++ [f]))%list.
Proof.
  induction files as [|f rest IH]; intros a l s Hin; simpl in Hin; [contradiction|].
  set (a1 := set_currentlyProcessingFile (Some (name f)) a) in *.
  set (l1 := pushName (name f) l) in *.
  assert (Hhead : forall w, awaitedFile w = name f ->
            exists pre f0 post,
              f :: rest = (pre ++ f0 :: post)%list
              /\ at_signals (mkSnap a1 l1 w)
                 = set_currentlyProcessingFile (Some (name f0)) a
              /\ awaitedFile (awaited (mkSnap a1 l1 w)) = name f0
              /\ fileNames (at_locals (mkSnap a1 l1 w))
                 = (fileNames l ++ map name (pre ++ [f0]))%list).
  { intros w Hw. exists [], f, rest. simpl. auto. }
  assert (Hpages : forall pages tr r,
            pagesLoop a1 (name f) 1 pages l1 = (tr, r) -> In s tr ->
            exists pre f0 post,
              f :: rest = (pre ++ f0 :: post)%list
              /\ at_signals s = set_currentlyProcessingFile (Some (name f0)) a
              /\ awaitedFile (awaited s) = name f0
              /\ fileNames (at_locals s)
                 = (fileNames l ++ map name (pre ++ [f0]))%list).
  { intros pages tr r E Hs.
    destruct (pagesLoop_snapshots a1 (name f) pages 1 l1 s) as (H1 & H2 & H3).
    { now rewrite E. }
    exists [], f, rest. simpl. repeat split; auto. }
  destruct (data f) as [| |pages]; simpl in Hin.
  - destruct Hin as [<-|[]]. now apply Hhead.
  - destruct Hin as [<-|[<-|[]]]; now apply Hhead.
  - destruct (pagesLoop a1 (name f) 1 pages l1) as [tr [l2|]] eqn:E.
    + pose proof (pagesLoop_result a1 (name f) pages 1 l1) as Hr.
      rewrite E in Hr. simpl in Hr.
      assert (Hl2 : fileNames l2 = (fileNames l ++ [name f])%list).
      { destruct (forallb pageReadable pages); [|discriminate].
        injection Hr as ->. reflexivity. }
      specialize (IH a1 l2 s).
      destruct (filesLoop a1 rest l2) as [tr' out]. simpl in Hin.
      destruct Hin as [<-|[<-|Hin]]; try (now apply Hhead).
      apply in_app_or in Hin as [Hin|Hin]; [now apply (Hpages pages tr (Some l2))|].
      destruct (IH Hin) as (pre & f0 & post & -> & Hs & Hw & Hn).
      exists (f :: pre), f0, post. repeat split; auto.
      rewrite Hn, Hl2. simpl. now rewrite <- app_assoc.
    + simpl in Hin. destruct Hin as [<-|[<-|Hin]]; try (now apply Hhead).
      now apply (Hpages pages tr None).
Qed.



(** ** processFiles as a whole *)

Lemma processFiles_succeeds (a : AppComponent) (files : list File) :
  selectedFiles a = Some files -> files <> [] ->
  forallb readable files = true ->
  exists c,
    fst (processFiles a)
    = epilogue (commit files (mkLocals (batchText files) (map name files))
                  (set_currentlyProcessingFile c (prologue a))).
Proof.
  intros Hsel Hne Hall. unfold processFiles. rewrite Hsel.
  destruct files as [|f rest]; [congruence|].
  pose proof (filesLoop_result (f :: rest) (prologue a) (mkLocals "" [])) as Hr.
  destruct (filesLoop_signals (f :: rest) (prologue a) (mkLocals "" [])) as [c Hc].
  rewrite Hall in Hr.
  destruct (filesLoop (prologue a) (f :: rest) (mkLocals "" [])) as [tr [a1 r]].
  simpl fst in *. simpl snd in *. subst r a1. exists c. reflexivity.
Qed.

Lemma processFiles_fails (a : AppComponent) (files : list File) :
  selectedFiles a = Some files -> files <> [] ->
  forallb readable files = false ->
  exists c,
    fst (processFiles a)
    = epilogue (onError (set_currentlyProcessingFile c (prologue a))).
Proof.
  intros Hsel Hne Hall. unfold processFiles. rewrite Hsel.
  destruct files as [|f rest]; [congruence|].
  pose proof (filesLoop_result (f :: rest) (prologue a) (mkLocals "" [])) as Hr.
  destruct (filesLoop_signals (f :: rest) (prologue a) (mkLocals "" [])) as [c Hc].
  rewrite Hall in Hr.
  destruct (filesLoop (prologue a) (f :: rest) (mkLocals "" [])) as [tr [a1 r]].
  simpl fst in *. simpl snd in *. subst r a1. exists c. reflexivity.
Qed.

Lemma processFiles_trace (a : AppComponent) (files : list File) :
  selectedFiles a = Some files -> files <> [] ->
  snd (processFiles a) = fst (filesLoop (prologue a) files (mkLocals "" [])).
Proof.
  intros Hsel Hne. unfold processFiles. rewrite Hsel.
  destruct files as [|f rest]; [congruence|].
  destruct (filesLoop (prologue a) (f :: rest) (mkLocals "" [])) as [tr [a1 [l|]]];
    reflexivity.
Qed.

(** ** The committed text *)

(** C2, as the code has it.  For every batch whose files can all be read,
    the committed knowledge text is, file after file in input order and page
    after page in ascending order, the items of the page joined by a single
    space followed by two line feeds: the separator comes after every page,
    not once per file.  The names are committed in input order and the
    selection is cleared. *)
Theorem C2_text_by_file_and_page (a : AppComponent) (files : list File) :
  selectedFiles a = Some files -> files <> [] ->
  forallb readable files = true ->
  knowledgeBase (fst (processFiles a)) = batchText files
  /\ processedFileNames (fst (processFiles a)) = map name files
  /\ processingSuccess (fst (processFiles a))
     = Some (successMessage (List.length files))
  /\ selectedFiles (fst (processFiles a)) = None.
Proof.
  intros Hsel Hne Hall.
  destruct (processFiles_succeeds a files Hsel Hne Hall) as [c ->].
  repeat split.
Qed.

Lemma C2_witness :
  knowledgeBase (fst (processFiles (handleFiles (Some [x_pdf; y_pdf]) initial)))
  = "A" ++ LF ++ LF ++ "B" ++ LF ++ LF ++ "C" ++ LF ++ LF.
Proof.
  apply (C2_text_by_file_and_page
           (handleFiles (Some [x_pdf; y_pdf]) initial) [x_pdf; y_pdf]).
  - reflexivity.
  - discriminate.
  - reflexivity.
Defined.

(** C2, as the specification words it, fails on its own example: [x.pdf]
    with the pages "A" and "B" and [y.pdf] with the page "C" are extracted
    with success, and the text is not "A B\n\n" followed by "C\n\n". *)
Lemma C2_counterexample :
  let a' := fst (processFiles (handleFiles (Some [x_pdf; y_pdf]) initial)) in
  processingSuccess a' = Some "Successfully processed 2 document(s)."
  /\ knowledgeBase a' = "A" ++ LF ++ LF ++ "B" ++ LF ++ LF ++ "C" ++ LF ++ LF
  /\ knowledgeBase a' <> ("A B" ++ LF ++ LF) ++ ("C" ++ LF ++ LF).
Proof.
  cbv zeta. repeat split. vm_compute. discriminate.
Qed.

(** ** A batch that fails *)




(** C10.  Called on a non-empty selection, [processFiles] has emptied the
    chat history and the knowledge text before anything is asked of the
    port: they are empty at every suspension, the first one included.  When
    the batch fails they are still empty at the end; what they held at the
    call is not put back. *)
Theorem C10_cleared_before_reading (a : AppComponent) (files : list File) :
  selectedFiles a = Some files -> files <> [] ->
  snd (processFiles a) <> []
  /\ (forall s, In s (snd (processFiles a)) ->
        knowledgeBase (at_signals s) = "" /\ chatHistory (at_signals s) = [])
  /\ (forallb readable files = false ->
        knowledgeBase (fst (processFiles a)) = ""
        /\ chatHistory (fst (processFiles a)) = []).
Proof.
  intros Hsel Hne. rewrite (processFiles_trace a files Hsel Hne).
  split; [|split].
  - destruct files as [|f rest]; [congruence|]. simpl.
    destruct (data f) as [| |pages]; try discriminate.
    destruct (pagesLoop _ (name f) 1 pages _) as [tr [l2|]]; [|discriminate].
    destruct (filesLoop _ rest l2) as [tr' out]. discriminate.
  - intros s Hin.
    destruct (filesLoop_snapshots files (prologue a) (mkLocals "" []) s Hin)
      as (pre & f & post & _ & -> & _).
    split; reflexivity.
  - intros Hall.
    destruct (processFiles_fails a files Hsel Hne Hall) as [c ->].
    split; reflexivity.
Qed.

Lemma C10_witness :
  knowledgeBase selected_over_old = "old"
  /\ chatHistory selected_over_old = [an_exchange]
  /\ knowledgeBase (fst (processFiles selected_over_old)) = ""
  /\ chatHistory (fst (processFiles selected_over_old)) = [].
Proof.
  destruct (C10_cleared_before_reading selected_over_old [x_pdf; y_bad])
    as (_ & _ & H); [reflexivity | discriminate |].
  destruct (H eq_refl) as [Hk Hc].
  repeat split; assumption.
Defined.

(** ** The names of the files *)

(** C9, as the code has it.  At every suspension of [processFiles] the name
    of the file being read is already on the local name list, which holds
    the names of the files begun so far; the published [processedFileNames]
    is what it was at the call.  It is written once, with the names in input
    order, when every file of the batch was read, and not at all when the
    batch fails. *)
Theorem C9_names_published_at_the_end (a : AppComponent) (files : list File) :
  selectedFiles a = Some files -> files <> [] ->
  (forall s, In s (snd (processFiles a)) ->
     processedFileNames (at_signals s) = processedFileNames a
     /\ exists pre f post,
          files = (pre ++ f :: post)%list
          /\ awaitedFile (awaited s) = name f
          /\ currentlyProcessingFile (at_signals s) = Some (name f)
          /\ fileNames (at_locals s) = map name (pre ++ [f]))
  /\ (forallb readable files = true ->
        processedFileNames (fst (processFiles a)) = map name files)
  /\ (forallb readable files = false ->
        processedFileNames (fst (processFiles a)) = processedFileNames a).
Proof.
  intros Hsel Hne. split; [|split].
  - rewrite (processFiles_trace a files Hsel Hne). intros s Hin.
    destruct (filesLoop_snapshots files (prologue a) (mkLocals "" []) s Hin)
      as (pre & f & post & Hf & Hs & Hw & Hn).
    split; [now rewrite Hs|].
    exists pre, f, post. rewrite Hs. repeat split; assumption.
  - intros Hall.
    destruct (processFiles_succeeds a files Hsel Hne Hall) as [c ->]. reflexivity.
  - intros Hall.
    destruct (processFiles_fails a files Hsel Hne Hall) as [c ->]. reflexivity.
Qed.

Lemma C9_witness :
  processedFileNames (fst (processFiles (handleFiles (Some [x_pdf; y_pdf]) initial)))
  = ["x.pdf"; "y.pdf"].
Proof.
  destruct (C9_names_published_at_the_end
              (handleFiles (Some [x_pdf; y_pdf]) initial) [x_pdf; y_pdf])
    as (_ & H & _); [reflexivity | discriminate |].
  exact (H eq_refl).
Defined.

(** C9, as the specification words it, fails: while [processFiles] still
    waits for the bytes of [x.pdf], no page of it read, the name is on the
    name list. *)
Lemma C9_counterexample :
  In first_suspension (snd (processFiles (handleFiles (Some [x_pdf]) initial)))
  /\ awaited first_suspension = ArrayBufferOf "x.pdf"
  /\ combinedText (at_locals first_suspension) = ""
  /\ In "x.pdf" (fileNames (at_locals first_suspension)).
Proof.
  split; [vm_compute; left; reflexivity|].
  repeat split. simpl. auto.
Qed.

End AppSpec.

(** * Properties of the viewer session *)

Module ViewerSpec.
Import Port Viewer ViewerExamples.

Local Open Scope Z_scope.

(** ** Runs and reachable worlds *)

Lemma run_reachable (ls : list Label) :
  forall w w', Reachable w -> run ls w = Some w' -> Reachable w'.
Proof.
  induction ls as [|l ls IH]; intros w w' Hw Hrun; simpl in Hrun.
  - now injection Hrun as <-.
  - destruct (step l w) as [w1|] eqn:E; [|discriminate].
    apply (IH w1 w'); [|assumption].
    now apply (reach_step _ l w w1).
Qed.

Lemma runUnder_reachable (rule : Label -> World -> bool) (ls : list Label) :
  forall w w',
    ReachableUnder rule w -> runUnder rule ls w = Some w' -> ReachableUnder rule w'.
Proof.
  induction ls as [|l ls IH]; intros w w' Hw Hrun; simpl in Hrun.
  - now injection Hrun as <-.
  - destruct (rule l w) eqn:R; [|discriminate].
    destruct (step l w) as [w1|] eqn:E; [|discriminate].
    apply (IH w1 w'); [|assumption].
    now apply (reach_step _ l w w1).
Qed.

Lemma reachable_weaken (rule : Label -> World -> bool) (w : World) :
  ReachableUnder rule w -> Reachable w.
Proof.
  induction 1 as [|l w w' _ IH _ Hstep]; [constructor|].
  now apply (reach_step _ l w w').
Qed.

(** ** What each turn does to the signals *)

(** [renderPage], up to its first [await], writes no signal and none of the
    logs but that of the cancelled tasks. *)
Lemma renderPage_frame (p : Z) (w : World) :
  comp (renderPage p w) = comp w
  /\ canvas (renderPage p w) = canvas w
  /\ calls (renderPage p w) = calls w
  /\ opened (renderPage p w) = opened w
  /\ destroyed (renderPage p w) = destroyed w
  /\ unhandled (renderPage p w) = unhandled w
  /\ console (renderPage p w) = console w.
Proof.
  unfold renderPage.
  destruct (pdfDoc (comp w)); [|repeat split].
  destruct ((p <? 1) || (p >? totalPages (comp w))); [repeat split|].
  destruct (renderTask (comp w)); repeat split.
Qed.

Lemma comp_renderPage (p : Z) (w : World) : comp (renderPage p w) = comp w.
Proof. apply renderPage_frame. Qed.

(** The signals after a suspended method went on. *)
Lemma comp_resume (k : Cont) (ok : bool) (w : World) :
  comp (resume k ok w)
  = match k with
    | LoadDestroy _ => set_pdfDoc None (comp w)
    | LoadArrayBuffer f =>
        match ok, data f with
        | false, _ | true, ArrayBufferRejects =>
            set_isLoading false (set_error (Some loadFailure) (comp w))
        | true, _ => comp w
        end
    | LoadGetDocument f =>
        match ok, data f with
        | true, Pdf pages =>
            set_isLoading false
              (set_totalPages (numPages pages)
                (set_pdfDoc (Some (mkDoc (fresh w) f pages)) (comp w)))
        | _, _ => set_isLoading false (set_error (Some loadFailure) (comp w))
        end
    | RenderGetPage d p =>
        if ok
        then set_renderTask (Some (mkTask (fresh w) d p (scale (comp w)))) (comp w)
        else comp w
    | RenderPromise t =>
        if isCancelled t w then comp w
        else if ok then set_renderTask None (comp w) else comp w
    end.
Proof.
  destruct k as [f|f|f|d p|t]; simpl.
  - reflexivity.
  - destruct ok; [destruct (data f)|]; reflexivity.
  - destruct ok; [destruct (data f) as [| |pages]|]; try reflexivity.
    unfold loadDone. cbn [upd comp with_comp]. now rewrite comp_renderPage.
  - destruct ok; reflexivity.
  - destruct (isCancelled t w); [reflexivity|]. destruct ok; reflexivity.
Qed.

(** ** The scale *)

Local Open Scope Q_scope.

Lemma Qltb_lt (x y : Q) : Qltb x y = true <-> x < y.
Proof.
  unfold Qltb. rewrite negb_true_iff.
  split.
  - intros H. apply Qnot_le_lt. intros Hle.
    apply Qle_bool_iff in Hle. congruence.
  - intros H. destruct (Qle_bool y x) eqn:E; [|reflexivity].
    apply Qle_bool_iff in E. exfalso. now apply (Qlt_not_le x y).
Qed.

Lemma Qltb_ge (x y : Q) : Qltb x y = false <-> y <= x.
Proof.
  unfold Qltb. rewrite negb_false_iff. apply Qle_bool_iff.
Qed.

Lemma quarter_up (k : Z) : k # 4 < maxScale -> (k # 4) + scaleStep <= maxScale.
Proof. unfold Qlt, Qle, maxScale, scaleStep. simpl. lia. Qed.

Lemma quarter_down (k : Z) : minScale < k # 4 -> minScale <= (k # 4) - scaleStep.
Proof. unfold Qlt, Qle, minScale, scaleStep. simpl. lia. Qed.

Lemma quarter_succ (k : Z) : (k # 4) + scaleStep == (k + 1) # 4.
Proof. unfold Qeq, scaleStep. simpl. lia. Qed.

Lemma quarter_pred (k : Z) : (k # 4) - scaleStep == (k - 1) # 4.
Proof. unfold Qeq, scaleStep. simpl. lia. Qed.

(** Below the largest scale, zoom-in adds exactly a quarter. *)
Lemma zoomIn_scale (s : Q) :
  ScaleInv s -> s < maxScale ->
  Qmin maxScale (s + scaleStep) == s + scaleStep /\ ScaleInv (s + scaleStep).
Proof.
  intros [[Hlo Hhi] [k Hk]] Hlt.
  assert (Hup : s + scaleStep <= maxScale).
  { rewrite Hk in *. now apply quarter_up. }
  split; [now apply Q.min_r|].
  split; [split; [|assumption]|].
  - apply Qle_trans with s; [assumption|].
    rewrite <- (Qplus_0_r s) at 1. apply Qplus_le_r. discriminate.
  - exists (k + 1)%Z. rewrite Hk. apply quarter_succ.
Qed.

(** Above the smallest scale, zoom-out takes exactly a quarter off. *)
Lemma zoomOut_scale (s : Q) :
  ScaleInv s -> minScale < s ->
  Qmax minScale (s - scaleStep) == s - scaleStep /\ ScaleInv (s - scaleStep).
Proof.
  intros [[Hlo Hhi] [k Hk]] Hlt.
  assert (Hdown : minScale <= s - scaleStep).
  { rewrite Hk in *. now apply quarter_down. }
  split; [now apply Q.max_r|].
  split; [split; [assumption|]|].
  - apply Qle_trans with s; [|assumption].
    rewrite <- (Qplus_0_r s) at 2. unfold Qminus. apply Qplus_le_r. discriminate.
  - exists (k - 1)%Z. rewrite Hk. apply quarter_pred.
Qed.

Lemma ScaleInv_default : ScaleInv defaultScale.
Proof.
  split; [split; discriminate|]. exists 6%Z. reflexivity.
Qed.

Lemma ScaleInv_eq (s t : Q) : s == t -> ScaleInv s -> ScaleInv t.
Proof.
  intros E [[Hlo Hhi] [k Hk]]. split; [split|].
  - now rewrite <- E.
  - now rewrite <- E.
  - exists k. now rewrite <- E.
Qed.

(** The scale after one turn. *)
Lemma scale_step (l : Label) (w w' : World) :
  step l w = Some w' ->
  scale (comp w')
  = match l with
    | Load _ => defaultScale
    | ZoomIn =>
        if Qltb (scale (comp w)) maxScale
        then Qmin maxScale (scale (comp w) + scaleStep)
        else scale (comp w)
    | ZoomOut =>
        if Qltb minScale (scale (comp w))
        then Qmax minScale (scale (comp w) - scaleStep)
        else scale (comp w)
    | _ => scale (comp w)
    end.
Proof.
  destruct l as [f| | | | | |id ok]; simpl; intros Hstep.
  - injection Hstep as <-. unfold loadPdf. cbn [upd comp with_comp with_calls].
    destruct (pdfDoc (resetView (comp w))); reflexivity.
  - injection Hstep as <-. unfold nextPage.
    destruct (currentPage (comp w) <? totalPages (comp w))%Z; [|reflexivity].
    now rewrite comp_renderPage.
  - injection Hstep as <-. unfold prevPage.
    destruct (currentPage (comp w) >? 1)%Z; [|reflexivity].
    now rewrite comp_renderPage.
  - injection Hstep as <-. unfold zoomIn.
    destruct (Qltb (scale (comp w)) maxScale); [|reflexivity].
    now rewrite comp_renderPage.
  - injection Hstep as <-. unfold zoomOut.
    destruct (Qltb minScale (scale (comp w))); [|reflexivity].
    now rewrite comp_renderPage.
  - injection Hstep as <-. unfold ngOnDestroy.
    destruct (pdfDoc (comp w)); reflexivity.
  - destruct (take id (pending w)) as [[k rest]|]; [|discriminate].
    injection Hstep as <-. rewrite comp_resume.
    destruct k as [f|f|f|d p|t]; cbn [comp with_pending].
    + reflexivity.
    + destruct ok; [destruct (data f)|]; reflexivity.
    + destruct ok; [destruct (data f)|]; reflexivity.
    + destruct ok; reflexivity.
    + destruct (isCancelled t _); [reflexivity|]. destruct ok; reflexivity.
Qed.

Lemma ScaleInv_step (l : Label) (w w' : World) :
  step l w = Some w' -> ScaleInv (scale (comp w)) -> ScaleInv (scale (comp w')).
Proof.
  intros Hstep Hinv. rewrite (scale_step l w w' Hstep).
  destruct l; try assumption.
  - apply ScaleInv_default.
  - destruct (Qltb (scale (comp w)) maxScale) eqn:E; [|assumption].
    apply Qltb_lt in E. destruct (zoomIn_scale _ Hinv E) as [Heq Hnext].
    apply (ScaleInv_eq (scale (comp w) + scaleStep)); [now symmetry | assumption].
  - destruct (Qltb minScale (scale (comp w))) eqn:E; [|assumption].
    apply Qltb_lt in E. destruct (zoomOut_scale _ Hinv E) as [Heq Hnext].
    apply (ScaleInv_eq (scale (comp w) - scaleStep)); [now symmetry | assumption].
Qed.

Lemma ScaleInv_reachable (w : World) : Reachable w -> ScaleInv (scale (comp w)).
Proof.
  induction 1 as [|l w w' _ IH _ Hstep]; [apply ScaleInv_default|].
  now apply (ScaleInv_step l w w').
Qed.

(** C7.  In every world the component can be in, the scale lies between 0.5
    and 3.0.  A turn that is not a zoom leaves the scale alone, but for
    [loadPdf], which puts it back to 1.5.  Zoom-in below 3.0 adds exactly
    0.25 and zoom-out above 0.5 takes exactly 0.25 off; at the bound they
    change nothing at all: the world is the same, no render was asked for. *)
Theorem C7_scale_within_bounds_in_quarter_steps (w : World) :
  Reachable w ->
  (minScale <= scale (comp w) <= maxScale)
  /\ (forall l w', step l w = Some w' ->
        match l with
        | Load _ => scale (comp w') = defaultScale
        | ZoomIn =>
            if Qltb (scale (comp w)) maxScale
            then scale (comp w') == scale (comp w) + scaleStep
            else w' = w
        | ZoomOut =>
            if Qltb minScale (scale (comp w))
            then scale (comp w') == scale (comp w) - scaleStep
            else w' = w
        | _ => scale (comp w') = scale (comp w)
        end)
  /\ (scale (comp w) == maxScale -> zoomIn w = w)
  /\ (scale (comp w) == minScale -> zoomOut w = w).
Proof.
  intros Hw. pose proof (ScaleInv_reachable w Hw) as Hinv.
  split; [apply Hinv|]. split; [|split].
  - intros l w' Hstep. pose proof (scale_step l w w' Hstep) as Hs.
    destruct l; try assumption.
    + destruct (Qltb (scale (comp w)) maxScale) eqn:E.
      * rewrite Hs. apply Qltb_lt in E. now apply zoomIn_scale.
      * simpl in Hstep. unfold zoomIn in Hstep. rewrite E in Hstep. congruence.
    + destruct (Qltb minScale (scale (comp w))) eqn:E.
      * rewrite Hs. apply Qltb_lt in E. now apply zoomOut_scale.
      * simpl in Hstep. unfold zoomOut in Hstep. rewrite E in Hstep. congruence.
  - intros Hmax. unfold zoomIn.
    assert (E : Qltb (scale (comp w)) maxScale = false).
    { apply Qltb_ge. rewrite Hmax. apply Qle_refl. }
    now rewrite E.
  - intros Hmin. unfold zoomOut.
    assert (E : Qltb minScale (scale (comp w)) = false).
    { apply Qltb_ge. rewrite Hmin. apply Qle_refl. }
    now rewrite E.
Qed.

Lemma C7_witness :
  scale (comp (finalOf zoomed_to_max)) == maxScale
  /\ zoomIn (finalOf zoomed_to_max) = finalOf zoomed_to_max.
Proof.
  assert (Hr : Reachable (finalOf zoomed_to_max)).
  { apply (run_reachable zoomed_to_max initial); [constructor | reflexivity]. }
  assert (Hmax : scale (comp (finalOf zoomed_to_max)) == maxScale) by reflexivity.
  split; [exact Hmax|].
  exact (proj1 (proj2 (proj2
           (C7_scale_within_bounds_in_quarter_steps (finalOf zoomed_to_max) Hr)))
           Hmax).
Defined.

(** C7, as the specification words it, fails for [loadPdf]: not every change
    of the scale is a step of 0.25.  [b.pdf] is shown and zoomed to 3.0; with
    no load running and the component alive, [a.pdf] is given to the viewer,
    and [loadPdf] puts the scale from 3.0 back to 1.5 in one turn. *)
Lemma C7_counterexample :
  runUnder oneAtATimeAlive b_zoomed_to_max initial = Some (finalOf b_zoomed_to_max)
  /\ loadsPending (finalOf b_zoomed_to_max) = 0%nat
  /\ oneAtATimeAlive (Load a_doc) (finalOf b_zoomed_to_max) = true
  /\ step (Load a_doc) (finalOf b_zoomed_to_max) = Some (finalOf reloaded_at_max)
  /\ ReachableUnder oneAtATimeAlive (finalOf reloaded_at_max)
  /\ scale (comp (finalOf b_zoomed_to_max)) == 3
  /\ scale (comp (finalOf reloaded_at_max)) == 3 # 2
  /\ ~ scale (comp (finalOf reloaded_at_max))
        == scale (comp (finalOf b_zoomed_to_max)) - scaleStep
  /\ ~ scale (comp (finalOf reloaded_at_max))
        == scale (comp (finalOf b_zoomed_to_max)) + scaleStep
  /\ ~ scale (comp (finalOf reloaded_at_max))
        == scale (comp (finalOf b_zoomed_to_max)).
Proof.
  assert (Hrun : runUnder oneAtATimeAlive b_zoomed_to_max initial
                 = Some (finalOf b_zoomed_to_max)) by (vm_compute; reflexivity).
  assert (Hall : runUnder oneAtATimeAlive reloaded_at_max initial
                 = Some (finalOf reloaded_at_max)) by (vm_compute; reflexivity).
  split; [exact Hrun|].
  split; [vm_compute; reflexivity|].
  split; [vm_compute; reflexivity|].
  split; [vm_compute; reflexivity|].
  split.
  { apply (runUnder_reachable oneAtATimeAlive reloaded_at_max initial);
      [constructor | exact Hall]. }
  split; [vm_compute; reflexivity|].
  split; [vm_compute; reflexivity|].
  split; [intros H; vm_compute in H; discriminate H|].
  split; intros H; vm_compute in H; discriminate H.
Qed.

Local Close Scope Q_scope.

(** ** The suspended loads *)

Lemma loadConts_spawn (k : Cont) (w : World) :
  loadConts (spawn k w) = (loadConts w ++ if isLoad k then [k] else [])%list.
Proof.
  unfold loadConts, spawn. cbn [pending with_fresh with_pending].
  rewrite map_app, filter_app. simpl. now destruct (isLoad k).
Qed.

Lemma loadConts_renderPage (p : Z) (w : World) :
  loadConts (renderPage p w) = loadConts w.
Proof.
  unfold renderPage.
  destruct (pdfDoc (comp w)); [|reflexivity].
  destruct ((p <? 1) || (p >? totalPages (comp w))); [reflexivity|].
  rewrite loadConts_spawn. simpl. rewrite app_nil_r.
  destruct (renderTask (comp w)); reflexivity.
Qed.

Lemma fresh_renderPage (p : Z) (w : World) : (fresh w <= fresh (renderPage p w))%nat.
Proof.
  unfold renderPage.
  destruct (pdfDoc (comp w)); [|lia].
  destruct ((p <? 1) || (p >? totalPages (comp w))); [lia|].
  destruct (renderTask (comp w)); simpl; lia.
Qed.

(** Taking a continuation out takes it out of the suspended loads when it is
    one, and leaves them alone when it is not. *)
Lemma take_loadConts (id : nat) (ps : list (nat * Cont)) :
  forall k rest,
    take id ps = Some (k, rest) ->
    if isLoad k
    then exists l1 l2,
           filter isLoad (map snd ps) = (l1 ++ k :: l2)%list
           /\ filter isLoad (map snd rest) = (l1 ++ l2)%list
    else filter isLoad (map snd ps) = filter isLoad (map snd rest).
Proof.
  induction ps as [|[i k0] ps IH]; intros k rest Htake; simpl in Htake;
    [discriminate|].
  destruct (Nat.eqb i id).
  - injection Htake as <- <-. simpl.
    destruct (isLoad k0) eqn:E.
    + now exists [], (filter isLoad (map snd ps)).
    + reflexivity.
  - destruct (take id ps) as [[k' rest']|]; [|discriminate].
    injection Htake as <- <-. specialize (IH k' rest' eq_refl). simpl.
    destruct (isLoad k') eqn:E.
    + destruct IH as (l1 & l2 & H1 & H2).
      destruct (isLoad k0).
      * exists (k0 :: l1), l2. simpl. now rewrite H1, H2.
      * now exists l1, l2.
    + now rewrite IH.
Qed.

(** With one suspended load at most, taking a continuation out leaves no
    load when it is the load, and the same loads when it is not. *)
Lemma take_single_load (id : nat) (w : World) (k : Cont) (rest : list (nat * Cont)) :
  take id (pending w) = Some (k, rest) ->
  (loadsPending w <= 1)%nat ->
  if isLoad k
  then loadConts w = [k] /\ loadConts (with_pending rest w) = []
  else loadConts (with_pending rest w) = loadConts w.
Proof.
  intros Htake Hle. pose proof (take_loadConts id (pending w) k rest Htake) as H.
  unfold loadsPending, loadConts in *. cbn [pending with_pending].
  destruct (isLoad k).
  - destruct H as (l1 & l2 & H1 & H2). rewrite H1 in Hle |- *. rewrite H2.
    rewrite length_app in Hle. simpl in Hle.
    destruct l1; [|simpl in Hle; lia]. destruct l2; [|simpl in Hle; lia].
    split; reflexivity.
  - now symmetry.
Qed.

(** The suspended loads after a suspended method went on. *)
Lemma loadConts_resume (k : Cont) (ok : bool) (w : World) :
  loadConts (resume k ok w)
  = (loadConts w
     ++ match k with
        | LoadDestroy f => [LoadArrayBuffer f]
        | LoadArrayBuffer f =>
            match ok, data f with
            | false, _ | true, ArrayBufferRejects => []
            | true, _ => [LoadGetDocument f]
            end
        | _ => []
        end)%list.
Proof.
  destruct k as [f|f|f|d p|t]; simpl.
  - now rewrite loadConts_spawn.
  - destruct ok; [destruct (data f)|]; rewrite ?loadConts_spawn, ?app_nil_r;
      reflexivity.
  - rewrite app_nil_r.
    destruct ok; [destruct (data f) as [| |pages]|]; try reflexivity.
    unfold loadDone. unfold loadConts at 1. cbn [pending upd with_comp].
    fold (loadConts (renderPage (currentPage
      (comp (upd (set_totalPages (numPages pages))
        (upd (set_pdfDoc (Some (mkDoc (fresh w) f pages)))
          (with_opened (opened w ++ [mkDoc (fresh w) f pages])
            (with_fresh (S (fresh w)) w))))))
      (upd (set_totalPages (numPages pages))
        (upd (set_pdfDoc (Some (mkDoc (fresh w) f pages)))
          (with_opened (opened w ++ [mkDoc (fresh w) f pages])
            (with_fresh (S (fresh w)) w)))))).
    now rewrite loadConts_renderPage.
  - rewrite app_nil_r. destruct ok; [|reflexivity].
    unfold startRender. now rewrite loadConts_spawn, app_nil_r.
  - rewrite app_nil_r. destruct (isCancelled t w); [reflexivity|].
    destruct ok; reflexivity.
Qed.

Lemma comp_loadPdf (f : File) (w : World) : comp (loadPdf f w) = resetView (comp w).
Proof.
  unfold loadPdf. cbn [upd comp with_comp with_calls].
  destruct (pdfDoc (resetView (comp w))); reflexivity.
Qed.

Lemma loadConts_loadPdf (f : File) (w : World) :
  loadConts (loadPdf f w)
  = (loadConts w
     ++ [match pdfDoc (comp w) with
         | Some _ => LoadDestroy f
         | None => LoadArrayBuffer f
         end])%list.
Proof.
  unfold loadPdf. cbn [upd comp with_comp with_calls].
  change (pdfDoc (resetView (comp w))) with (pdfDoc (comp w)).
  destruct (pdfDoc (comp w)); now rewrite loadConts_spawn.
Qed.

Lemma numPages_nonneg (pages : list Page) : 0 <= numPages pages.
Proof. unfold numPages. lia. Qed.

(** ** The current page *)

Lemma nextPage_at_last (w : World) :
  totalPages (comp w) <= currentPage (comp w) -> nextPage w = w.
Proof.
  intros H. unfold nextPage.
  destruct (currentPage (comp w) <? totalPages (comp w)) eqn:E; [|reflexivity].
  apply Z.ltb_lt in E. lia.
Qed.

Lemma prevPage_at_first (w : World) :
  currentPage (comp w) <= 1 -> prevPage w = w.
Proof.
  intros H. unfold prevPage.
  destruct (currentPage (comp w) >? 1) eqn:E; [|reflexivity].
  apply Z.gtb_lt in E. lia.
Qed.

Lemma SeqPage_loads (w : World) : SeqPage w -> (loadsPending w <= 1)%nat.
Proof.
  unfold SeqPage, loadsPending. destruct (loadConts w) as [|k [|k' ks]]; simpl;
    intros H; [lia | lia | contradiction].
Qed.

(** A turn with no load overlapping another keeps [SeqPage]. *)
Lemma SeqPage_step (l : Label) (w w' : World) :
  oneAtATime l w = true -> step l w = Some w' -> SeqPage w -> SeqPage w'.
Proof.
  intros Hrule Hstep Hinv. pose proof (SeqPage_loads w Hinv) as Hle.
  destruct l as [f| | | | | |id ok]; simpl in Hstep, Hrule.
  - injection Hstep as <-. apply Nat.eqb_eq in Hrule.
    unfold SeqPage. rewrite loadConts_loadPdf, comp_loadPdf.
    unfold loadsPending in Hrule. apply length_zero_iff_nil in Hrule.
    rewrite Hrule. simpl. auto.
  - injection Hstep as <-. unfold nextPage, SeqPage in *.
    destruct (currentPage (comp w) <? totalPages (comp w)) eqn:E; [|assumption].
    apply Z.ltb_lt in E. rewrite loadConts_renderPage, comp_renderPage.
    unfold loadConts in *. cbn [upd comp with_comp pending currentPage totalPages
      set_currentPage].
    destruct (filter isLoad (map snd (pending w))) as [|k [|k' ks]]; [|lia|assumption].
    right. lia.
  - injection Hstep as <-. unfold prevPage, SeqPage in *.
    destruct (currentPage (comp w) >? 1) eqn:E; [|assumption].
    apply Z.gtb_lt in E. rewrite loadConts_renderPage, comp_renderPage.
    unfold loadConts in *. cbn [upd comp with_comp pending currentPage totalPages
      set_currentPage].
    destruct (filter isLoad (map snd (pending w))) as [|k [|k' ks]]; [|lia|assumption].
    right. lia.
  - injection Hstep as <-. unfold zoomIn, SeqPage in *.
    destruct (Qltb (scale (comp w)) maxScale); [|assumption].
    rewrite loadConts_renderPage, comp_renderPage. exact Hinv.
  - injection Hstep as <-. unfold zoomOut, SeqPage in *.
    destruct (Qltb minScale (scale (comp w))); [|assumption].
    rewrite loadConts_renderPage, comp_renderPage. exact Hinv.
  - injection Hstep as <-. unfold ngOnDestroy.
    destruct (pdfDoc (comp w)); exact Hinv.
  - destruct (take id (pending w)) as [[k rest]|] eqn:Htake; [|discriminate].
    injection Hstep as <-.
    pose proof (take_single_load id w k rest Htake Hle) as Hk.
    unfold SeqPage in *. rewrite loadConts_resume, comp_resume.
    cbn [comp with_pending].
    destruct k as [f|f|f|d p|t]; cbn [isLoad] in Hk.
    + destruct Hk as [Hw ->]. rewrite Hw in Hinv. simpl. exact Hinv.
    + destruct Hk as [Hw ->]. rewrite Hw in Hinv.
      destruct ok; [destruct (data f)|]; simpl; auto.
    + destruct Hk as [Hw ->]. rewrite Hw in Hinv. destruct Hinv as [Htp Hcp].
      destruct ok; [destruct (data f) as [| |pages]|]; simpl; auto.
      pose proof (numPages_nonneg pages).
      destruct (Z.eq_dec (numPages pages) 0); [left | right]; lia.
    + rewrite Hk, app_nil_r. destruct ok; exact Hinv.
    + rewrite Hk, app_nil_r.
      destruct (isCancelled t _); [exact Hinv|]. destruct ok; exact Hinv.
Qed.

Lemma SeqPage_reachable (w : World) : ReachableUnder oneAtATime w -> SeqPage w.
Proof.
  induction 1 as [|l w w' _ IH Hrule Hstep].
  - left. split; reflexivity.
  - now apply (SeqPage_step l w w').
Qed.

(** C8, as the code has it.  As long as [loadPdf] is not called while an
    earlier call is still running, the current page is within 1 and the
    page count once there are pages.  Whatever the world, [nextPage] at the
    last page and [prevPage] at page 1 change nothing at all: the world is
    the same, no render was asked for. *)
Theorem C8_page_within_bounds_without_overlap (w : World) :
  (ReachableUnder oneAtATime w ->
   0 < totalPages (comp w) -> 1 <= currentPage (comp w) <= totalPages (comp w))
  /\ (currentPage (comp w) = totalPages (comp w) -> nextPage w = w)
  /\ (currentPage (comp w) = 1 -> prevPage w = w).
Proof.
  split; [|split].
  - intros Hw Hpos. pose proof (SeqPage_reachable w Hw) as Hinv.
    unfold SeqPage in Hinv.
    destruct (loadConts w) as [|k [|k' ks]]; [|lia|contradiction].
    destruct Hinv as [[Htp _]|H]; [lia | exact H].
  - intros H. apply nextPage_at_last. lia.
  - intros H. apply prevPage_at_first. lia.
Qed.

Lemma C8_witness :
  1 <= currentPage (comp (finalOf b_shown)) <= totalPages (comp (finalOf b_shown))
  /\ prevPage (finalOf b_shown) = finalOf b_shown.
Proof.
  destruct (C8_page_within_bounds_without_overlap (finalOf b_shown))
    as (Hin & _ & Hprev).
  split.
  - apply Hin.
    + apply (runUnder_reachable oneAtATime b_shown initial);
        [constructor | vm_compute; reflexivity].
    + vm_compute. reflexivity.
  - apply Hprev. vm_compute. reflexivity.
Defined.

(** C8, as the specification words it, fails when loads overlap: [a.pdf]
    (one page) and [b.pdf] (three pages) are given to the viewer one right
    after the other, [b.pdf] is shown first and the user goes to its page 3;
    when the load of [a.pdf] then settles, the page count is 1 and the
    current page still 3. *)
Lemma C8_counterexample :
  run a_lands_on_page_3 initial = Some (finalOf a_lands_on_page_3)
  /\ Reachable (finalOf a_lands_on_page_3)
  /\ totalPages (comp (finalOf a_lands_on_page_3)) = 1
  /\ currentPage (comp (finalOf a_lands_on_page_3)) = 3
  /\ ~ PageInv (comp (finalOf a_lands_on_page_3)).
Proof.
  assert (Hrun : run a_lands_on_page_3 initial = Some (finalOf a_lands_on_page_3))
    by (vm_compute; reflexivity).
  assert (Htp : totalPages (comp (finalOf a_lands_on_page_3)) = 1)
    by (vm_compute; reflexivity).
  assert (Hcp : currentPage (comp (finalOf a_lands_on_page_3)) = 3)
    by (vm_compute; reflexivity).
  split; [exact Hrun|]. split; [|split; [exact Htp|split; [exact Hcp|]]].
  - apply (run_reachable a_lands_on_page_3 initial); [constructor | exact Hrun].
  - unfold PageInv. rewrite Htp, Hcp. lia.
Qed.

(** ** The documents *)

Lemma latestCall_snoc (w w' : World) (f : File) :
  calls w' = (calls w ++ [f])%list -> latestCall w' = Some f.
Proof.
  intros E. unfold latestCall. rewrite E, map_app. simpl. apply last_last.
Qed.

Lemma latestCall_same (w w' : World) :
  calls w' = calls w -> latestCall w' = latestCall w.
Proof. intros E. unfold latestCall. now rewrite E. Qed.

(** The logs after [loadPdf] ran to its first [await]. *)
Lemma loadPdf_logs (f : File) (w : World) :
  calls (loadPdf f w) = (calls w ++ [f])%list
  /\ opened (loadPdf f w) = opened w
  /\ destroyed (loadPdf f w)
     = (destroyed w ++ match pdfDoc (comp w) with
                       | Some d => [doc_id d]
                       | None => []
                       end)%list
  /\ (fresh w <= fresh (loadPdf f w))%nat.
Proof.
  unfold loadPdf. cbn [upd comp with_comp with_calls].
  change (pdfDoc (resetView (comp w))) with (pdfDoc (comp w)).
  destruct (pdfDoc (comp w)); simpl; rewrite ?app_nil_r; repeat split; lia.
Qed.

(** The logs after a suspended method went on. *)
Lemma resume_logs (k : Cont) (ok : bool) (w : World) :
  calls (resume k ok w) = calls w
  /\ destroyed (resume k ok w) = destroyed w
  /\ opened (resume k ok w)
     = (opened w
        ++ match k with
           | LoadGetDocument f =>
               match ok, data f with
               | true, Pdf pages => [mkDoc (fresh w) f pages]
               | _, _ => []
               end
           | _ => []
           end)%list
  /\ (fresh w <= fresh (resume k ok w))%nat
  /\ (forall f pages, k = LoadGetDocument f -> ok = true -> data f = Pdf pages ->
        (S (fresh w) <= fresh (resume k ok w))%nat).
Proof.
  destruct k as [f|f|f|d p|t]; cbn [resume].
  - simpl. rewrite app_nil_r. repeat split; solve [lia | discriminate].
  - rewrite app_nil_r.
    destruct ok; [destruct (data f)|]; simpl; repeat split;
      solve [lia | discriminate].
  - destruct ok; [destruct (data f) as [| |pages] eqn:E|].
    + simpl. rewrite app_nil_r. repeat split; try lia.
      intros f0 pages [= <-] _ H. congruence.
    + simpl. rewrite app_nil_r. repeat split; try lia.
      intros f0 pages [= <-] _ H. congruence.
    + unfold loadDone.
      match goal with
      | |- context [renderPage ?p ?w0] =>
          pose proof (renderPage_frame p w0) as (_ & _ & Hc & Ho & Hd & _);
          pose proof (fresh_renderPage p w0) as Hf
      end.
      cbn [upd calls opened destroyed fresh with_comp] in *.
      rewrite Hc, Ho, Hd. simpl in Hf |- *. repeat split; lia.
    + simpl. rewrite app_nil_r. repeat split; solve [lia | congruence].
  - simpl. rewrite app_nil_r. destruct ok; simpl; repeat split;
      solve [lia | discriminate].
  - simpl. rewrite app_nil_r. destruct (isCancelled t w); [|destruct ok]; simpl;
      repeat split; solve [lia | discriminate].
Qed.

(** [SeqDocs] only looks at the documents, the loads and the load status. *)
Lemma SeqDocs_frame (w w' : World) :
  destroyed w' = destroyed w -> opened w' = opened w -> calls w' = calls w ->
  pdfDoc (comp w') = pdfDoc (comp w) ->
  totalPages (comp w') = totalPages (comp w) ->
  isLoading (comp w') = isLoading (comp w) ->
  loadConts w' = loadConts w -> (fresh w <= fresh w')%nat ->
  SeqDocs w -> SeqDocs w'.
Proof.
  intros Hd Ho Hc Hp Ht Hi Hl Hf (H1 & H2 & H3 & H4 & H5 & H6).
  unfold SeqDocs. rewrite Hd, Ho, Hp, Ht, Hi, Hl, Hc, (latestCall_same w w' Hc).
  repeat split; try assumption.
  - intros id Hin. specialize (H2 id Hin). lia.
  - intros d Hin. specialize (H3 d Hin). lia.
Qed.

(** The page and zoom buttons keep [SeqDocs]. *)
Lemma view_command_frame (l : Label) (w w' : World) :
  match l with
  | NextPage | PrevPage | ZoomIn | ZoomOut => True
  | _ => False
  end ->
  step l w = Some w' ->
  destroyed w' = destroyed w /\ opened w' = opened w /\ calls w' = calls w
  /\ pdfDoc (comp w') = pdfDoc (comp w)
  /\ totalPages (comp w') = totalPages (comp w)
  /\ isLoading (comp w') = isLoading (comp w)
  /\ loadConts w' = loadConts w /\ (fresh w <= fresh w')%nat.
Proof.
  intros Hl Hstep.
  assert (Hgen : forall (g : Component -> Component) (p : Z),
            (forall c, pdfDoc (g c) = pdfDoc c
                       /\ totalPages (g c) = totalPages c
                       /\ isLoading (g c) = isLoading c) ->
            destroyed (renderPage p (upd g w)) = destroyed w
            /\ opened (renderPage p (upd g w)) = opened w
            /\ calls (renderPage p (upd g w)) = calls w
            /\ pdfDoc (comp (renderPage p (upd g w))) = pdfDoc (comp w)
            /\ totalPages (comp (renderPage p (upd g w))) = totalPages (comp w)
            /\ isLoading (comp (renderPage p (upd g w))) = isLoading (comp w)
            /\ loadConts (renderPage p (upd g w)) = loadConts w
            /\ (fresh w <= fresh (renderPage p (upd g w)))%nat).
  { intros g p Hg.
    destruct (renderPage_frame p (upd g w)) as (Hc & _ & Hca & Ho & Hd & _).
    pose proof (fresh_renderPage p (upd g w)) as Hf.
    rewrite Hc, Hca, Ho, Hd, loadConts_renderPage.
    destruct (Hg (comp w)) as (G1 & G2 & G3).
    repeat split; assumption. }
  assert (Hsame : destroyed w = destroyed w /\ opened w = opened w
            /\ calls w = calls w /\ pdfDoc (comp w) = pdfDoc (comp w)
            /\ totalPages (comp w) = totalPages (comp w)
            /\ isLoading (comp w) = isLoading (comp w)
            /\ loadConts w = loadConts w /\ (fresh w <= fresh w)%nat)
    by (repeat split; lia).
  destruct l; try contradiction; simpl in Hstep; injection Hstep as <-.
  - unfold nextPage.
    destruct (currentPage (comp w) <? totalPages (comp w)); [|exact Hsame].
    apply Hgen. intros c. repeat split.
  - unfold prevPage.
    destruct (currentPage (comp w) >? 1); [|exact Hsame].
    apply Hgen. intros c. repeat split.
  - unfold zoomIn.
    destruct (Qltb (scale (comp w)) maxScale); [|exact Hsame].
    apply Hgen. intros c. repeat split.
  - unfold zoomOut.
    destruct (Qltb minScale (scale (comp w))); [|exact Hsame].
    apply Hgen. intros c. repeat split.
Qed.

Lemma SeqDocs_loads (w : World) : SeqDocs w -> (loadsPending w <= 1)%nat.
Proof.
  intros (_ & _ & _ & _ & _ & H). unfold loadsPending.
  destruct (loadConts w) as [|k [|k' ks]]; simpl; [lia | lia |].
  destruct k; contradiction.
Qed.

(** [loadPdf] called while no load is running keeps [SeqDocs]. *)
Lemma SeqDocs_loadPdf (f : File) (w : World) :
  loadConts w = [] -> SeqDocs w -> SeqDocs (loadPdf f w).
Proof.
  intros Hnone (H1 & H2 & H3 & H4 & H5 & H6). rewrite Hnone in H6.
  destruct H6 as [_ H6].
  destruct (loadPdf_logs f w) as (Lc & Lo & Ld & Lf).
  pose proof (comp_loadPdf f w) as Hc.
  assert (Hp : pdfDoc (comp (loadPdf f w)) = pdfDoc (comp w)) by now rewrite Hc.
  unfold SeqDocs.
  rewrite loadConts_loadPdf, Hnone, Lo, Ld, Hp, (latestCall_snoc w _ f Lc).
  split; [|split; [|split; [|split; [|split]]]].
  - apply NoDup_app; [assumption | |].
    + destruct (pdfDoc (comp w)); repeat constructor. intros [].
    + intros id Hin. destruct (pdfDoc (comp w)) as [d|] eqn:E; [|intros []].
      intros [<-|[]]. now apply (H6 d).
  - intros id Hin. apply in_app_or in Hin as [Hin|Hin].
    + specialize (H2 id Hin). lia.
    + destruct (pdfDoc (comp w)) as [d|] eqn:E; [|contradiction].
      destruct Hin as [<-|[]]. specialize (H3 d (H5 d eq_refl)). lia.
  - intros d Hin. specialize (H3 d Hin). lia.
  - intros d Hin. destruct (H4 d Hin) as [E|Hd]; [now left|].
    right. apply in_or_app. now left.
  - exact H5.
  - simpl. destruct (pdfDoc (comp w)) as [d|] eqn:E; simpl.
    + split; [reflexivity|]. intros d0 [= <-]. apply in_or_app. right. now left.
    + split; reflexivity.
Qed.

(** A suspended method going on keeps [SeqDocs]. *)
Lemma SeqDocs_settle (id : nat) (ok : bool) (w : World)
    (k : Cont) (rest : list (nat * Cont)) :
  take id (pending w) = Some (k, rest) ->
  SeqDocs w -> SeqDocs (resume k ok (with_pending rest w)).
Proof.
  intros Htake Hinv. pose proof (SeqDocs_loads w Hinv) as Hle.
  pose proof (take_single_load id w k rest Htake Hle) as Hk.
  set (w0 := with_pending rest w) in *.
  destruct (resume_logs k ok w0) as (Lc & Ld & Lo & Lf & Lf').
  pose proof (comp_resume k ok w0) as Hc.
  pose proof (loadConts_resume k ok w0) as Hl.
  destruct Hinv as (H1 & H2 & H3 & H4 & H5 & H6).
  change (calls w0) with (calls w) in *. change (destroyed w0) with (destroyed w) in *.
  change (opened w0) with (opened w) in *. change (fresh w0) with (fresh w) in *.
  change (comp w0) with (comp w) in *.
  assert (Hframe : isLoad k = false -> SeqDocs (resume k ok w0)).
  { intros Hnot. rewrite Hnot in Hk.
    apply (SeqDocs_frame w); try assumption.
    - rewrite Lo. destruct k; try discriminate; now rewrite app_nil_r.
    - rewrite Hc. destruct k as [| | |d p|t]; try discriminate.
      + destruct ok; reflexivity.
      + destruct (isCancelled t w0); [|destruct ok]; reflexivity.
    - rewrite Hc. destruct k as [| | |d p|t]; try discriminate.
      + destruct ok; reflexivity.
      + destruct (isCancelled t w0); [|destruct ok]; reflexivity.
    - rewrite Hc. destruct k as [| | |d p|t]; try discriminate.
      + destruct ok; reflexivity.
      + destruct (isCancelled t w0); [|destruct ok]; reflexivity.
    - rewrite Hl, Hk. destruct k; try discriminate; now rewrite app_nil_r.
    - repeat split; assumption. }
  assert (Hfailed : forall f,
            latestCall w = Some f -> pdfDoc (comp w) = None ->
            comp (resume k ok w0)
            = set_isLoading false (set_error (Some loadFailure) (comp w)) ->
            opened (resume k ok w0) = opened w ->
            loadConts (resume k ok w0) = [] ->
            SeqDocs (resume k ok w0)).
  { intros f Hlast Hnone Hc' Ho' Hl'. unfold SeqDocs.
    rewrite Ld, Ho', Hl', Hc', (latestCall_same w _ Lc).
    cbn [pdfDoc isLoading totalPages set_isLoading set_error]. rewrite Hnone.
    split; [assumption|]. split; [intros i Hi; specialize (H2 i Hi); lia|].
    split; [intros d Hd; specialize (H3 d Hd); lia|].
    split; [intros d Hd; destruct (H4 d Hd) as [E|E]; [congruence | now right]|].
    split; [discriminate|]. split; [reflexivity | discriminate]. }
  destruct k as [f|f|f|d p|t]; cbn [isLoad] in Hk; try (now apply Hframe).
  - (* the old document is destroyed: detach it and read the file *)
    destruct Hk as [Hw Hw0]. rewrite Hw in H6. destruct H6 as [Hlast Hdes].
    rewrite Hw0 in Hl. cbn [app] in Hl. rewrite app_nil_r in Lo.
    unfold SeqDocs. rewrite Ld, Lo, Hl, Hc, (latestCall_same w _ Lc).
    cbn [pdfDoc set_pdfDoc].
    split; [assumption|]. split; [intros i Hi; specialize (H2 i Hi); lia|].
    split; [intros d Hd; specialize (H3 d Hd); lia|].
    split; [|split; [discriminate | split; [assumption | reflexivity]]].
    intros d Hd. right. destruct (H4 d Hd) as [E|E]; [now apply Hdes | exact E].
  - (* the bytes are read, or not *)
    destruct Hk as [Hw Hw0]. rewrite Hw in H6. destruct H6 as [Hlast Hnone].
    rewrite Hw0 in Hl. cbn [app] in Hl. rewrite app_nil_r in Lo.
    destruct ok; [destruct (data f) eqn:E|];
      try (now apply (Hfailed f)).
    + unfold SeqDocs. rewrite Ld, Lo, Hl, Hc, (latestCall_same w _ Lc).
      split; [assumption|]. split; [intros i Hi; specialize (H2 i Hi); lia|].
      split; [intros d Hd; specialize (H3 d Hd); lia|].
      repeat split; assumption.
    + unfold SeqDocs. rewrite Ld, Lo, Hl, Hc, (latestCall_same w _ Lc).
      split; [assumption|]. split; [intros i Hi; specialize (H2 i Hi); lia|].
      split; [intros d Hd; specialize (H3 d Hd); lia|].
      repeat split; assumption.
  - (* the document is parsed, or not *)
    destruct Hk as [Hw Hw0]. rewrite Hw in H6. destruct H6 as [Hlast Hnone].
    rewrite Hw0 in Hl. cbn [app] in Hl.
    destruct ok; [destruct (data f) as [| |pages] eqn:E|];
      try (rewrite app_nil_r in Lo; now apply (Hfailed f)).
    specialize (Lf' f pages eq_refl eq_refl E).
    unfold SeqDocs. rewrite Ld, Lo, Hl, Hc, (latestCall_same w _ Lc).
    cbn [pdfDoc isLoading totalPages set_isLoading set_totalPages set_pdfDoc].
    split; [assumption|]. split; [intros i Hi; specialize (H2 i Hi); lia|].
    split; [|split; [|split; [|split]]].
    + intros d Hd. apply in_app_or in Hd as [Hd|[<-|[]]].
      * specialize (H3 d Hd). lia.
      * cbn [doc_id]. lia.
    + intros d Hd. apply in_app_or in Hd as [Hd|[<-|[]]].
      * right. destruct (H4 d Hd) as [E'|E']; [congruence | exact E'].
      * now left.
    + intros d [= <-]. apply in_or_app. right. now left.
    + reflexivity.
    + intros d [= <-]. cbn [doc_id doc_file doc_pages].
      split; [|split; [assumption | reflexivity]].
      intros Hin. specialize (H2 _ Hin). lia.
Qed.

(** A turn of a live component, with no load overlapping another, keeps
    [SeqDocs]. *)
Lemma SeqDocs_step (l : Label) (w w' : World) :
  oneAtATimeAlive l w = true -> step l w = Some w' -> SeqDocs w -> SeqDocs w'.
Proof.
  intros Hrule Hstep Hinv.
  assert (Hview : match l with
                  | NextPage | PrevPage | ZoomIn | ZoomOut => True
                  | _ => False
                  end -> SeqDocs w').
  { intros Hl.
    destruct (view_command_frame l w w' Hl Hstep)
      as (F1 & F2 & F3 & F4 & F5 & F6 & F7 & F8).
    now apply (SeqDocs_frame w w'). }
  destruct l as [f| | | | | |id ok];
    [| now apply Hview | now apply Hview | now apply Hview | now apply Hview
     | simpl in Hrule; discriminate |].
  - simpl in Hstep, Hrule. injection Hstep as <-. apply Nat.eqb_eq in Hrule.
    apply SeqDocs_loadPdf; [|assumption].
    now apply length_zero_iff_nil.
  - simpl in Hstep.
    destruct (take id (pending w)) as [[k rest]|] eqn:Htake; [|discriminate].
    injection Hstep as <-. now apply (SeqDocs_settle id).
Qed.

Lemma SeqDocs_initial : SeqDocs initial.
Proof.
  unfold SeqDocs. simpl.
  repeat split; try constructor; try contradiction; try discriminate.
Qed.

Lemma SeqDocs_reachable (w : World) : ReachableUnder oneAtATimeAlive w -> SeqDocs w.
Proof.
  induction 1 as [|l w w' _ IH Hrule Hstep]; [apply SeqDocs_initial|].
  now apply (SeqDocs_step l w w').
Qed.

(** C4, as the code has it.  While the component is alive and [loadPdf] is
    not called before the earlier call has settled, every document pdf.js
    returned is the attached one or was destroyed exactly once, none was
    destroyed twice, and between loads the attached document is that of the
    latest call, not destroyed, with its page count published and
    [isLoading] false.  There is no guard against an earlier call: whenever
    the parse awaited by a suspended [loadPdf] is fulfilled, its document is
    attached and its page count published, and nothing is destroyed. *)
Theorem C4_loads_one_at_a_time (w : World) :
  (ReachableUnder oneAtATimeAlive w ->
   (forall d, In d (opened w) ->
      pdfDoc (comp w) = Some d \/ released d w = 1%nat)
   /\ (forall d, In d (opened w) -> (released d w <= 1)%nat)
   /\ (forall d, pdfDoc (comp w) = Some d -> loadsPending w = 0%nat ->
         released d w = 0%nat
         /\ latestCall w = Some (doc_file d)
         /\ totalPages (comp w) = numPages (doc_pages d)
         /\ isLoading (comp w) = false))
  /\ (forall id f pages rest,
        take id (pending w) = Some (LoadGetDocument f, rest) ->
        data f = Pdf pages ->
        exists w',
          step (Settle id true) w = Some w'
          /\ pdfDoc (comp w') = Some (mkDoc (fresh w) f pages)
          /\ totalPages (comp w') = numPages pages
          /\ isLoading (comp w') = false
          /\ destroyed w' = destroyed w).
Proof.
  split.
  - intros Hw. destruct (SeqDocs_reachable w Hw) as (H1 & H2 & H3 & H4 & H5 & H6).
    split; [|split].
    + intros d Hd. destruct (H4 d Hd) as [E|E]; [now left|right].
      unfold released. now apply NoDup_count_occ'.
    + intros d _. unfold released. now apply NoDup_count_occ.
    + intros d Hd Hnone. unfold loadsPending in Hnone.
      apply length_zero_iff_nil in Hnone. rewrite Hnone in H6.
      destruct H6 as [Hload H6]. destruct (H6 d Hd) as (Hnot & Hlast & Htp).
      split; [|split; [assumption | split; [assumption|]]].
      * unfold released. now apply count_occ_not_In.
      * apply Hload. intros Hc. unfold latestCall in Hlast. rewrite Hc in Hlast.
        discriminate.
  - intros id f pages rest Htake Hdata. simpl. rewrite Htake.
    eexists. split; [reflexivity|].
    rewrite comp_resume, Hdata.
    destruct (resume_logs (LoadGetDocument f) true (with_pending rest w))
      as (_ & Ld & _).
    repeat split. exact Ld.
Qed.

Lemma C4_witness :
  released (a_handle 2) (finalOf a_then_b) = 1%nat
  /\ latestCall (finalOf a_then_b) = Some b_doc
  /\ totalPages (comp (finalOf a_then_b)) = 3.
Proof.
  assert (Hr : ReachableUnder oneAtATimeAlive (finalOf a_then_b)).
  { apply (runUnder_reachable oneAtATimeAlive a_then_b initial);
      [constructor | vm_compute; reflexivity]. }
  destruct (C4_loads_one_at_a_time (finalOf a_then_b)) as [H _].
  destruct (H Hr) as (Hold & _ & Hnew).
  split.
  - destruct (Hold (a_handle 2)) as [E|E].
    + vm_compute. left. reflexivity.
    + vm_compute in E. discriminate.
    + exact E.
  - destruct (Hnew (b_handle 9)) as (_ & Hlast & Htp & _).
    + vm_compute. reflexivity.
    + vm_compute. reflexivity.
    + split; [exact Hlast | exact Htp].
Defined.

(** C4, as the specification words it, fails.  [a.pdf] and [b.pdf] are given
    to the viewer one right after the other.  When [a.pdf] is parsed first,
    its document is replaced by that of [b.pdf] and never destroyed.  When
    [a.pdf] is parsed last, [b.pdf] being shown already, the document and the
    page count of [a.pdf] replace those of [b.pdf], the document of [b.pdf]
    is never destroyed, and page 1 of [a.pdf] is drawn. *)
Lemma C4_counterexample :
  (run a_settles_first initial = Some (finalOf a_settles_first)
   /\ pdfDoc (comp (finalOf a_settles_first)) = Some (b_handle 6)
   /\ opened (finalOf a_settles_first) = [a_handle 3; b_handle 6]
   /\ released (a_handle 3) (finalOf a_settles_first) = 0%nat)
  /\ (run b_overtakes_a initial = Some (finalOf b_overtakes_a)
      /\ pdfDoc (comp (finalOf b_overtakes_a)) = Some (b_handle 3)
      /\ totalPages (comp (finalOf b_overtakes_a)) = 3
      /\ isLoading (comp (finalOf b_overtakes_a)) = false
      /\ shown (canvas (finalOf b_overtakes_a)) = Some ("b.pdf", 1))
  /\ (run a_lands_and_draws initial = Some (finalOf a_lands_and_draws)
      /\ latestCall (finalOf a_lands_and_draws) = Some b_doc
      /\ pdfDoc (comp (finalOf a_lands_and_draws)) = Some (a_handle 8)
      /\ totalPages (comp (finalOf a_lands_and_draws)) = 1
      /\ opened (finalOf a_lands_and_draws) = [b_handle 3; a_handle 8]
      /\ released (b_handle 3) (finalOf a_lands_and_draws) = 0%nat
      /\ shown (canvas (finalOf a_lands_and_draws)) = Some ("a.pdf", 1)
      /\ pending (finalOf a_lands_and_draws) = []).
Proof.
  vm_compute. repeat split.
Qed.

(** ** Renders *)

Lemma isCancelled_cancel (t : Task) (w : World) : isCancelled t (cancel t w) = true.
Proof.
  unfold isCancelled, cancel. cbn [cancelled with_cancelled].
  rewrite existsb_app. simpl. now rewrite Nat.eqb_refl, orb_true_r.
Qed.

(** C5.  On [b.pdf] shown, next is clicked twice before either page has
    arrived.  No render task is tracked at either click, so nothing is
    cancelled and both pages are given to pdf.js to draw.  When the drawing
    of page 2 ends after that of page 3, or when the drawing of page 3 is
    refused, everything has settled with the current page 3 and the canvas
    showing page 2. *)
Theorem C5_two_nexts_leave_the_earlier_page :
  (run two_nexts initial = Some (finalOf two_nexts)
   /\ pending (finalOf two_nexts) = []
   /\ currentPage (comp (finalOf two_nexts)) = 3
   /\ shown (canvas (finalOf two_nexts)) = Some ("b.pdf", 2)
   /\ cancelled (finalOf two_nexts) = [])
  /\ (run two_nexts_second_refused initial = Some (finalOf two_nexts_second_refused)
      /\ pending (finalOf two_nexts_second_refused) = []
      /\ currentPage (comp (finalOf two_nexts_second_refused)) = 3
      /\ shown (canvas (finalOf two_nexts_second_refused)) = Some ("b.pdf", 2)
      /\ cancelled (finalOf two_nexts_second_refused) = []).
Proof.
  vm_compute. repeat split.
Qed.

(** C6, as the code has it.  A render request made while a render task is
    tracked cancels that task.  When the promise of a cancelled task
    settles, no signal is written, the canvas and the console are left
    alone and the suspended [renderPage] is gone; the rejection is not
    absorbed, it leaves [renderPage] with nobody to handle it. *)
Theorem C6_cancellation_leaves_unhandled (w : World) :
  (forall p d t,
     pdfDoc (comp w) = Some d -> renderTask (comp w) = Some t ->
     1 <= p <= totalPages (comp w) ->
     isCancelled t (renderPage p w) = true)
  /\ (forall id t rest ok,
        take id (pending w) = Some (RenderPromise t, rest) ->
        isCancelled t w = true ->
        exists w',
          step (Settle id ok) w = Some w'
          /\ comp w' = comp w
          /\ canvas w' = canvas w
          /\ console w' = console w
          /\ pending w' = rest
          /\ unhandled w' = (unhandled w ++ [RenderingCancelled t])%list).
Proof.
  split.
  - intros p d t Hd Ht Hp. unfold renderPage. rewrite Hd, Ht.
    assert (E : (p <? 1) || (p >? totalPages (comp w)) = false).
    { apply orb_false_iff. split; [|rewrite Z.gtb_ltb]; apply Z.ltb_ge; lia. }
    rewrite E. unfold isCancelled. cbn [cancelled spawn with_fresh with_pending].
    apply (isCancelled_cancel t w).
  - intros id t rest ok Htake Hc. simpl. rewrite Htake.
    eexists. split; [reflexivity|].
    cbn [resume]. change (isCancelled t (with_pending rest w)) with (isCancelled t w).
    rewrite Hc. repeat split.
Qed.

Lemma C6_witness :
  exists w',
    step (Settle 8 true) (finalOf (b_shown ++ [ZoomIn; Settle 6 true; ZoomIn])) = Some w'
    /\ canvas w' = canvas (finalOf (b_shown ++ [ZoomIn; Settle 6 true; ZoomIn]))
    /\ List.length (unhandled w') = 1%nat.
Proof.
  destruct (C6_cancellation_leaves_unhandled
              (finalOf (b_shown ++ [ZoomIn; Settle 6 true; ZoomIn])))
    as [_ H].
  destruct (H 8%nat (mkTask 7 (b_handle 2) 1 (Qmin maxScale (defaultScale + scaleStep)))
              [(9%nat, RenderGetPage (b_handle 2) 1)] true)
    as (w' & Hstep & _ & Hcanvas & _ & _ & Hun).
  - vm_compute. reflexivity.
  - vm_compute. reflexivity.
  - exists w'. split; [exact Hstep|]. split; [exact Hcanvas|].
    rewrite Hun. vm_compute. reflexivity.
Defined.

(** C6, as the specification words it, fails: on [b.pdf] shown, zoom-in is
    clicked, its render starts, and zoom-in is clicked again.  Everything
    settles with the canvas showing the page at the second scale, and with
    the rejection of the cancelled first render unhandled. *)
Lemma C6_counterexample :
  run two_zooms initial = Some (finalOf two_zooms)
  /\ pending (finalOf two_zooms) = []
  /\ cancelled (finalOf two_zooms) = [7%nat]
  /\ unhandled (finalOf two_zooms)
     = [RenderingCancelled
          (mkTask 7 (b_handle 2) 1 (Qmin maxScale (defaultScale + scaleStep)))]
  /\ unhandled (finalOf two_zooms) <> [].
Proof.
  vm_compute. repeat split. discriminate.
Qed.

End ViewerSpec.

(** * More properties of the extraction pipeline *)

Module AppExtra.
Import Port Js JsText App Gemini AppRest AppExamples MoreExamples AppSpec.

Local Open Scope string_scope.

(** ** Strings *)

Lemma length_append (s t : string) :
  String.length (s ++ t) = (String.length s + String.length t)%nat.
Proof. induction s as [|c s IH]; simpl; [reflexivity | now rewrite IH]. Qed.

Lemma append_inj (s1 s2 t1 t2 : string) :
  s1 ++ t1 = s2 ++ t2 -> String.length s1 = String.length s2 ->
  s1 = s2 /\ t1 = t2.
Proof.
  revert s2. induction s1 as [|c s1 IH]; intros [|c2 s2] E L; simpl in *;
    try discriminate; [now split|].
  injection E as -> E. injection L as L.
  destruct (IH s2 E L) as [-> ->]. now split.
Qed.

Lemma substring_all (s : string) : substring 0 (String.length s) s = s.
Proof. induction s as [|c s IH]; simpl; [reflexivity | now rewrite IH]. Qed.

Lemma substring_skip (pre t : string) (m : nat) :
  substring (String.length pre) m (pre ++ t) = substring 0 m t.
Proof. induction pre as [|c pre IH]; simpl; [reflexivity | exact IH]. Qed.

(** A string is its first [n] characters followed by the others. *)
Lemma substring_split (s : string) :
  forall n, (n <= String.length s)%nat ->
    s = substring 0 n s ++ substring n (String.length s - n) s.
Proof.
  induction s as [|c s IH]; intros n Hn; simpl in *.
  - destruct n; reflexivity.
  - destruct n as [|n]; simpl.
    + now rewrite substring_all.
    + rewrite <- (IH n); [reflexivity | lia].
Qed.

Lemma endsWith_iff (s suffix : string) :
  endsWith s suffix = true <-> exists pre, s = pre ++ suffix.
Proof.
  unfold endsWith. rewrite andb_true_iff, Nat.leb_le, String.eqb_eq. split.
  - intros [Hle Hsub].
    exists (substring 0 (String.length s - String.length suffix) s).
    rewrite <- Hsub at 2.
    rewrite (substring_split s (String.length s - String.length suffix)) at 1 by lia.
    f_equal. f_equal. lia.
  - intros [pre ->]. rewrite length_append. split; [lia|].
    replace (String.length pre + String.length suffix - String.length suffix)%nat
      with (String.length pre) by lia.
    now rewrite substring_skip, substring_all.
Qed.

Lemma toLowerCase_append (s t : string) :
  toLowerCase (s ++ t) = toLowerCase s ++ toLowerCase t.
Proof. induction s as [|c s IH]; simpl; [reflexivity | now rewrite IH]. Qed.

Lemma length_toLowerCase (s : string) :
  String.length (toLowerCase s) = String.length s.
Proof. induction s as [|c s IH]; simpl; [reflexivity | now rewrite IH]. Qed.

(** A string is a string followed by its last [k] characters. *)
Lemma split_last (s : string) (k : nat) :
  (k <= String.length s)%nat ->
  exists a b, s = a ++ b /\ String.length b = k.
Proof.
  induction s as [|c s IH]; intros Hk; simpl in Hk.
  - exists "", "". simpl. split; [reflexivity | lia].
  - destruct (Nat.eq_dec k (S (String.length s))) as [->|Hne].
    + exists "", (String c s). now split.
    + destruct IH as (a & b & -> & Hb); [lia|].
      exists (String c a), b. now split.
Qed.

(** ** Which files are taken *)

(** X1.  A file is taken for a PDF exactly when its name ends in an
    extension that reads [.pdf] once put in lower case: the check does not
    mind the case of the extension and needs nothing before it. *)
Theorem X1_pdf_extension_in_any_case (f : File) :
  isPdfName f = true
  <-> exists stem ext, name f = stem ++ ext /\ toLowerCase ext = ".pdf".
Proof.
  unfold isPdfName. rewrite endsWith_iff. split.
  - intros [pre Hpre].
    assert (Hlen : String.length (name f) = (String.length pre + 4)%nat).
    { rewrite <- length_toLowerCase, Hpre, length_append. reflexivity. }
    destruct (split_last (name f) 4) as (stem & ext & Hname & Hext); [lia|].
    exists stem, ext. split; [exact Hname|].
    rewrite Hname, toLowerCase_append in Hpre.
    apply append_inj in Hpre as [_ H]; [exact H|].
    rewrite length_toLowerCase. rewrite Hname, length_append in Hlen. lia.
  - intros (stem & ext & -> & Hext). exists (toLowerCase stem).
    now rewrite toLowerCase_append, Hext.
Qed.

Lemma X1_witness : isPdfName report_PDF = true.
Proof.
  apply (X1_pdf_extension_in_any_case report_PDF).
  exists "Report", ".PDF". split; reflexivity.
Defined.

Lemma nonPdfFiles_nil (fs : list File) :
  nonPdfFiles fs = [] <-> forallb isPdfName fs = true.
Proof.
  unfold nonPdfFiles. induction fs as [|f fs IH]; simpl; [tauto|].
  destruct (isPdfName f); simpl; [exact IH|]. split; discriminate.
Qed.

(** X2.  A batch that is not empty is staged exactly when every name is
    that of a PDF.  Staging it empties the knowledge text, the list of
    processed names and the chat history, and clears the messages and the
    viewer, before anything is read; the question, the busy flag of
    [generate] and the output format are kept.  Without files or with none,
    [handleFiles] changes nothing. *)
Theorem X2_staging_discards_earlier_results (a : AppComponent) (fs : list File) :
  fs <> [] ->
  (selectedFiles (handleFiles (Some fs) a) = Some fs
   <-> forallb isPdfName fs = true)
  /\ (forallb isPdfName fs = true ->
      knowledgeBase (handleFiles (Some fs) a) = ""
      /\ processedFileNames (handleFiles (Some fs) a) = []
      /\ chatHistory (handleFiles (Some fs) a) = []
      /\ processingSuccess (handleFiles (Some fs) a) = None
      /\ error (handleFiles (Some fs) a) = None
      /\ fileError (handleFiles (Some fs) a) = None
      /\ pdfToView (handleFiles (Some fs) a) = None
      /\ question (handleFiles (Some fs) a) = question a
      /\ generating (handleFiles (Some fs) a) = generating a
      /\ outputFormat (handleFiles (Some fs) a) = outputFormat a)
  /\ handleFiles None a = a
  /\ handleFiles (Some []) a = a.
Proof.
  intros Hne. destruct fs as [|f fs]; [congruence|].
  unfold handleFiles.
  destruct (nonPdfFiles (f :: fs)) as [|g gs] eqn:E.
  - assert (Hall : forallb isPdfName (f :: fs) = true) by now apply nonPdfFiles_nil.
    simpl. repeat split; auto.
  - assert (Hall : forallb isPdfName (f :: fs) <> true).
    { intros H. apply nonPdfFiles_nil in H. congruence. }
    simpl. repeat split; try reflexivity; try discriminate; try contradiction.
Qed.

Lemma X2_witness :
  knowledgeBase after_first_batch <> ""
  /\ knowledgeBase (handleFiles (Some [y_pdf]) after_first_batch) = ""
  /\ processedFileNames (handleFiles (Some [y_pdf]) after_first_batch) = [].
Proof.
  destruct (X2_staging_discards_earlier_results after_first_batch [y_pdf])
    as (_ & H & _); [discriminate|].
  destruct (H eq_refl) as (Hk & Hn & _).
  split; [vm_compute; discriminate|]. split; assumption.
Defined.

(** ** processFiles as a whole, again *)

Lemma processFiles_clears_selection (a : AppComponent) (files : list File) :
  selectedFiles a = Some files -> files <> [] ->
  selectedFiles (fst (processFiles a)) = None.
Proof.
  intros Hsel Hne.
  destruct (forallb readable files) eqn:Hall.
  - destruct (processFiles_succeeds a files Hsel Hne Hall) as [c ->]. reflexivity.
  - destruct (processFiles_fails a files Hsel Hne Hall) as [c ->]. reflexivity.
Qed.

(** X3.  Whatever the signals, once [processFiles] has settled a second
    call does nothing and asks nothing of the port: a batch is never read
    twice and a failed batch is not tried again until files are selected
    anew. *)
Theorem X3_processFiles_runs_a_selection_once (a : AppComponent) :
  processFiles (fst (processFiles a)) = (fst (processFiles a), []).
Proof.
  destruct (selectedFiles a) as [[|f fs]|] eqn:Hsel.
  - unfold processFiles at 2 3. rewrite Hsel. simpl.
    unfold processFiles. now rewrite Hsel.
  - assert (H : selectedFiles (fst (processFiles a)) = None)
      by (apply (processFiles_clears_selection a (f :: fs)); [assumption | discriminate]).
    unfold processFiles at 1. now rewrite H.
  - unfold processFiles at 2 3. rewrite Hsel. simpl.
    unfold processFiles. now rewrite Hsel.
Qed.

(** X4.  While a selection that is not empty is processed, at every
    suspension the busy flag is up and neither an error nor a success is
    shown.  When the call has settled the busy flag is down and no file is
    named as being processed, and exactly one of the two is shown: the
    success message when every file could be read, the generic error when
    one could not. *)
Theorem X4_busy_flag_and_outcome (a : AppComponent) (files : list File) :
  selectedFiles a = Some files -> files <> [] ->
  (forall s, In s (snd (processFiles a)) ->
     processingFiles (at_signals s) = true
     /\ error (at_signals s) = None
     /\ processingSuccess (at_signals s) = None)
  /\ processingFiles (fst (processFiles a)) = false
  /\ currentlyProcessingFile (fst (processFiles a)) = None
  /\ fileError (fst (processFiles a)) = None
  /\ (if forallb readable files
      then processingSuccess (fst (processFiles a))
             = Some (successMessage (List.length files))
           /\ error (fst (processFiles a)) = None
      else processingSuccess (fst (processFiles a)) = None
           /\ error (fst (processFiles a)) = Some readFailure).
Proof.
  intros Hsel Hne. split.
  - rewrite (processFiles_trace a files Hsel Hne). intros s Hin.
    destruct (filesLoop_snapshots files (prologue a) (mkLocals "" []) s Hin)
      as (pre & f & post & _ & -> & _).
    repeat split.
  - destruct (forallb readable files) eqn:Hall.
    + destruct (processFiles_succeeds a files Hsel Hne Hall) as [c ->].
      repeat split.
    + destruct (processFiles_fails a files Hsel Hne Hall) as [c ->].
      repeat split.
Qed.

Lemma X4_witness :
  processingFiles (fst (processFiles selected_over_old)) = false
  /\ error (fst (processFiles selected_over_old)) = Some readFailure
  /\ processingSuccess (fst (processFiles selected_over_old)) = None.
Proof.
  destruct (X4_busy_flag_and_outcome selected_over_old [x_pdf; y_bad])
    as (_ & Hb & _ & _ & H); [reflexivity | discriminate |].
  change (forallb readable [x_pdf; y_bad]) with false in H.
  destruct H as [Hs He]. repeat split; assumption.
Defined.

Lemma batchText_app (fs1 fs2 : list File) :
  batchText (fs1 ++ fs2) = batchText fs1 ++ batchText fs2.
Proof.
  induction fs1 as [|f fs1 IH]; simpl; [reflexivity|].
  now rewrite IH, append_assoc.
Qed.

(** X5.  Extraction composes: when two batches can be read, processing
    the one followed by the other as a single batch commits the text of the
    first followed by the text of the second, and the names likewise. *)
Theorem X5_batches_concatenate (a1 a2 a12 : AppComponent) (fs1 fs2 : list File) :
  fs1 <> [] -> fs2 <> [] ->
  selectedFiles a1 = Some fs1 -> selectedFiles a2 = Some fs2 ->
  selectedFiles a12 = Some (fs1 ++ fs2)%list ->
  forallb readable fs1 = true -> forallb readable fs2 = true ->
  knowledgeBase (fst (processFiles a12))
  = knowledgeBase (fst (processFiles a1)) ++ knowledgeBase (fst (processFiles a2))
  /\ processedFileNames (fst (processFiles a12))
     = (processedFileNames (fst (processFiles a1))
        ++ processedFileNames (fst (processFiles a2)))%list.
Proof.
  intros N1 N2 S1 S2 S12 R1 R2.
  assert (N12 : (fs1 ++ fs2)%list <> []) by (destruct fs1; [congruence | discriminate]).
  assert (R12 : forallb readable (fs1 ++ fs2) = true)
    by (rewrite forallb_app, R1, R2; reflexivity).
  destruct (processFiles_succeeds a1 fs1 S1 N1 R1) as [c1 ->].
  destruct (processFiles_succeeds a2 fs2 S2 N2 R2) as [c2 ->].
  destruct (processFiles_succeeds a12 _ S12 N12 R12) as [c12 ->].
  cbn [knowledgeBase processedFileNames epilogue commit set_currentlyProcessingFile
       set_processingFiles set_selectedFiles set_processingSuccess
       set_processedFileNames set_knowledgeBase combinedText fileNames].
  now rewrite batchText_app, map_app.
Qed.

Lemma X5_witness :
  knowledgeBase (submit [x_pdf; y_pdf] initial)
  = knowledgeBase (submit [x_pdf] initial) ++ knowledgeBase (submit [y_pdf] initial).
Proof.
  apply (X5_batches_concatenate
           (handleFiles (Some [x_pdf]) initial)
           (handleFiles (Some [y_pdf]) initial)
           (handleFiles (Some [x_pdf; y_pdf]) initial)
           [x_pdf] [y_pdf]);
    solve [discriminate | reflexivity].
Defined.

Lemma batchText_blank (files : list File) :
  (forall f, In f files -> data f = Pdf []) ->
  batchText files = "" /\ forallb readable files = true.
Proof.
  induction files as [|f files IH]; intros H; simpl; [now split|].
  destruct IH as [-> ->]; [intros g Hg; apply H; now right|].
  unfold fileText, readable. rewrite (H f (or_introl eq_refl)). now split.
Qed.

Lemma isFormInvalid_no_knowledge (a : AppComponent) :
  knowledgeBase a = "" -> isFormInvalid a = true.
Proof. intros H. unfold isFormInvalid. now rewrite H. Qed.

(** X6.  A batch of documents without a page is processed with success:
    the success message is shown and the names are listed, and yet the
    knowledge text is empty, so that [generate] does nothing whatever the
    question. *)
Theorem X6_documents_without_pages (a : AppComponent) (files : list File) :
  selectedFiles a = Some files -> files <> [] ->
  (forall f, In f files -> data f = Pdf []) ->
  processingSuccess (fst (processFiles a)) = Some (successMessage (List.length files))
  /\ processedFileNames (fst (processFiles a)) = map name files
  /\ knowledgeBase (fst (processFiles a)) = ""
  /\ forall out, generate out (fst (processFiles a)) = fst (processFiles a).
Proof.
  intros Hsel Hne Hblank. destruct (batchText_blank files Hblank) as [Htext Hall].
  destruct (processFiles_succeeds a files Hsel Hne Hall) as [c E].
  assert (Hk : knowledgeBase (fst (processFiles a)) = "")
    by (rewrite E; exact Htext).
  split; [now rewrite E|]. split; [now rewrite E|]. split; [exact Hk|].
  intros out. unfold generate. now rewrite (isFormInvalid_no_knowledge _ Hk).
Qed.

Lemma X6_witness :
  processingSuccess (submit [blank1; blank2] ready_to_ask)
  = Some "Successfully processed 2 document(s)."
  /\ knowledgeBase (submit [blank1; blank2] ready_to_ask) = "".
Proof.
  destruct (X6_documents_without_pages
              (handleFiles (Some [blank1; blank2]) ready_to_ask) [blank1; blank2])
    as (Hs & _ & Hk & _).
  - reflexivity.
  - discriminate.
  - intros f [<-|[<-|[]]]; reflexivity.
  - split; [exact Hs | exact Hk].
Defined.

Lemma processFiles_nothing_selected (a : AppComponent) :
  selectedFiles a = None -> processFiles a = (a, []).
Proof. intros H. unfold processFiles. now rewrite H. Qed.

Lemma generate_invalid (out : Outcome ProposalResult) (a : AppComponent) :
  isFormInvalid a = true -> generate out a = a.
Proof. intros H. unfold generate. now rewrite H. Qed.

Lemma clearFiles_selected (a : AppComponent) : selectedFiles (clearFiles a) = None.
Proof. reflexivity. Qed.

Lemma clearFiles_knowledge (a : AppComponent) : knowledgeBase (clearFiles a) = "".
Proof. reflexivity. Qed.

Lemma clearFiles_twice (a : AppComponent) : clearFiles (clearFiles a) = clearFiles a.
Proof. destruct a. vm_compute. reflexivity. Qed.

(** X7.  [clearFiles] leaves a component on which [processFiles] and
    [generate] do nothing, and clearing twice is clearing once; the question,
    the output format and the busy flag of [generate] are not touched. *)
Theorem X7_clearFiles_leaves_nothing_to_run (a : AppComponent) :
  processFiles (clearFiles a) = (clearFiles a, [])
  /\ (forall out, generate out (clearFiles a) = clearFiles a)
  /\ clearFiles (clearFiles a) = clearFiles a
  /\ question (clearFiles a) = question a
  /\ outputFormat (clearFiles a) = outputFormat a
  /\ generating (clearFiles a) = generating a.
Proof.
  split; [apply processFiles_nothing_selected, clearFiles_selected|].
  split.
  { intros out. apply generate_invalid, isFormInvalid_no_knowledge,
      clearFiles_knowledge. }
  split; [apply clearFiles_twice|].
  split; [reflexivity|]. split; reflexivity.
Qed.
(** ** Asking *)

Lemma isFormInvalid_generating (a : AppComponent) :
  generating a = true -> isFormInvalid a = true.
Proof. intros H. unfold isFormInvalid. rewrite H. apply orb_true_r. Qed.

(** X8.  [generate] does nothing, whatever the service would answer, on a
    batch that was just staged, after a batch that failed, and while an
    earlier [generate] has the busy flag up. *)
Theorem X8_generate_needs_knowledge_and_no_run
    (out : Outcome ProposalResult) (a : AppComponent) (files : list File) :
  files <> [] ->
  (forallb isPdfName files = true ->
   generate out (handleFiles (Some files) a) = handleFiles (Some files) a)
  /\ (selectedFiles a = Some files -> forallb readable files = false ->
      generate out (fst (processFiles a)) = fst (processFiles a))
  /\ (generating a = true -> generate out a = a).
Proof.
  intros Hne. split; [|split].
  - intros Hall. apply generate_invalid, isFormInvalid_no_knowledge.
    now apply handleFiles_accepts.
  - intros Hsel Hall. apply generate_invalid, isFormInvalid_no_knowledge.
    destruct (processFiles_fails a files Hsel Hne Hall) as [c ->]. reflexivity.
  - intros Hgen. now apply generate_invalid, isFormInvalid_generating.
Qed.

Lemma X8_witness :
  generate (Returns a_result) (fst (processFiles selected_over_old))
  = fst (processFiles selected_over_old).
Proof.
  destruct (X8_generate_needs_knowledge_and_no_run
              (Returns a_result) selected_over_old [x_pdf; y_bad])
    as (_ & H & _); [discriminate|].
  apply H; reflexivity.
Defined.

(** X9.  When the form is valid and the service answers, the exchange is
    put in front of the chat history with the question as typed: it is the
    latest result and the earlier exchanges are the history, unchanged and in
    their order.  The busy flag is down, no error is shown, the viewer is
    closed and the follow-ups are shown; the knowledge text, the question and
    the file signals are not touched. *)
Theorem X9_generate_prepends_the_exchange (r : ProposalResult) (a : AppComponent) :
  isFormInvalid a = false ->
  latestResult (generate (Returns r) a)
  = Some {| item_question := question a; item_result := r |}
  /\ history (generate (Returns r) a) = chatHistory a
  /\ generating (generate (Returns r) a) = false
  /\ error (generate (Returns r) a) = None
  /\ pdfToView (generate (Returns r) a) = None
  /\ showFollowUps (generate (Returns r) a) = true
  /\ knowledgeBase (generate (Returns r) a) = knowledgeBase a
  /\ question (generate (Returns r) a) = question a
  /\ selectedFiles (generate (Returns r) a) = selectedFiles a
  /\ processedFileNames (generate (Returns r) a) = processedFileNames a.
Proof.
  intros H. unfold generate. rewrite H. repeat split.
Qed.

Lemma X9_witness :
  latestResult (generate (Returns a_result) ready_to_ask)
  = Some {| item_question := "What is the delivery schedule?";
            item_result := a_result |}.
Proof.
  apply (X9_generate_prepends_the_exchange a_result ready_to_ask).
  vm_compute. reflexivity.
Defined.

(** What [generate] shows of a thrown value is never the empty string. *)
Lemma messageOr_shown (e : Thrown) (m : string) : messageOr e = inr m -> m <> "".
Proof.
  destruct e as [m0| | |]; simpl; intros [= <-]; try discriminate.
  destruct (String.eqb_spec m0 ""); [discriminate | assumption].
Qed.

Lemma isFormInvalid_after (a a' : AppComponent) :
  knowledgeBase a' = knowledgeBase a -> question a' = question a ->
  generating a' = false -> isFormInvalid a = false -> isFormInvalid a' = false.
Proof.
  unfold isFormInvalid. intros -> -> -> H.
  apply orb_false_iff in H as [H _]. rewrite H. reflexivity.
Qed.

(** X10.  When the form is valid and the service throws, the chat history
    and the knowledge text are as they were and the busy flag is down, so
    that the form is valid again.  For an [Error] the message thrown is
    shown, or the fallback when the message is empty; for another value
    without a message the fallback is shown; in both cases the promise of
    [generate()] is fulfilled.  For [null] or [undefined] the [catch] block
    itself throws: no error is shown and the promise of [generate()] is
    rejected with the [TypeError].  The error shown is never the empty
    string. *)
Theorem X10_generate_failure_shows_a_message (e : Thrown) (a : AppComponent) :
  isFormInvalid a = false ->
  chatHistory (generate (Throws e) a) = chatHistory a
  /\ knowledgeBase (generate (Throws e) a) = knowledgeBase a
  /\ generating (generate (Throws e) a) = false
  /\ isFormInvalid (generate (Throws e) a) = false
  /\ match e with
     | ErrorOf m =>
         error (generate (Throws e) a)
         = Some (if (m =? "")%string then unknownError else m)
         /\ generateRejects (Throws e) a = None
     | NotAnError =>
         error (generate (Throws e) a) = Some unknownError
         /\ generateRejects (Throws e) a = None
     | NullThrown =>
         error (generate (Throws e) a) = None
         /\ generateRejects (Throws e) a = Some (ErrorOf nullMessage)
     | UndefinedThrown =>
         error (generate (Throws e) a) = None
         /\ generateRejects (Throws e) a = Some (ErrorOf undefinedMessage)
     end
  /\ error (generate (Throws e) a) <> Some "".
Proof.
  intros H.
  assert (Hk : knowledgeBase (generate (Throws e) a) = knowledgeBase a).
  { unfold generate. rewrite H. destruct (messageOr e); reflexivity. }
  assert (Hq : question (generate (Throws e) a) = question a).
  { unfold generate. rewrite H. destruct (messageOr e); reflexivity. }
  assert (Hg : generating (generate (Throws e) a) = false).
  { unfold generate. rewrite H. reflexivity. }
  split.
  { unfold generate. rewrite H. destruct (messageOr e); reflexivity. }
  split; [exact Hk|]. split; [exact Hg|].
  split; [now apply (isFormInvalid_after a)|].
  split.
  - unfold generate, generateRejects. rewrite H.
    destruct e as [m| | |]; split; reflexivity.
  - unfold generate. rewrite H.
    destruct (messageOr e) as [t|m] eqn:E; [discriminate|].
    intros [= Hm]. now apply (messageOr_shown e m).
Qed.

Lemma X10_witness :
  error (generate (Throws NullThrown) ready_to_ask) = None
  /\ generateRejects (Throws NullThrown) ready_to_ask = Some (ErrorOf nullMessage).
Proof.
  destruct (X10_generate_failure_shows_a_message NullThrown ready_to_ask)
    as (_ & _ & _ & _ & H & _); [vm_compute; reflexivity|].
  exact H.
Defined.

(** ** Viewing and exporting *)

(** X12.  [viewPdf] opens the viewer and empties the chat history, so that
    there is no latest result and nothing to export, while the knowledge text
    stays.  It also takes down the busy flag of [generate]: after it the form
    is invalid exactly when it would be with no [generate] running. *)
Theorem X12_viewPdf_discards_the_conversation (f : File) (a : AppComponent) :
  pdfToView (viewPdf f a) = Some f
  /\ latestResult (viewPdf f a) = None
  /\ history (viewPdf f a) = []
  /\ resultContent (viewPdf f a) = None
  /\ (forall now, historyContent now (viewPdf f a) = None)
  /\ knowledgeBase (viewPdf f a) = knowledgeBase a
  /\ isFormInvalid (viewPdf f a) = isFormInvalid (set_generating false a).
Proof.
  repeat split.
Qed.

Lemma occursIn_mid (x pre post : string) : occursIn x (pre ++ x ++ post).
Proof. now exists pre, post. Qed.

Lemma occursIn_end (x pre : string) : occursIn x (pre ++ x).
Proof. apply occursIn_app_r, occursIn_refl. Qed.

(** X18.  Right after an exchange was made, the text that [downloadResult]
    exports holds the question as typed, the answer, and every follow-up
    question of that exchange. *)
Theorem X18_result_export_holds_the_exchange (r : ProposalResult) (a : AppComponent) :
  isFormInvalid a = false ->
  exists content,
    resultContent (generate (Returns r) a) = Some content
    /\ occursIn (question a) content
    /\ occursIn (answer r) content
    /\ forall q, In q (followUpQuestions r) -> occursIn q content.
Proof.
  intros H. unfold generate. rewrite H. unfold resultContent.
  cbn [latestResult chatHistory set_generating set_showFollowUps set_chatHistory
       item_question item_result].
  set (q0 := question (set_error None (set_generating true (set_pdfToView None a)))).
  change q0 with (question a). clear q0.
  destruct (followUpQuestions r) as [|q qs] eqn:E;
    cbn [List.length Nat.ltb Nat.leb].
  - eexists. split; [reflexivity|]. split; [|split].
    + apply occursIn_app_r, occursIn_app_r. apply occursIn_app_l, occursIn_refl.
    + repeat apply occursIn_app_r. apply occursIn_refl.
    + intros q [].
  - eexists. split; [reflexivity|]. split; [|split].
    + apply occursIn_app_l.
      apply occursIn_app_r, occursIn_app_r. apply occursIn_app_l, occursIn_refl.
    + apply occursIn_app_l. repeat apply occursIn_app_r. apply occursIn_refl.
    + intros q' Hq. repeat apply occursIn_app_r.
      now apply (occursIn_join (LF ++ "- ") q' (q :: qs)).
Qed.

Lemma X18_witness :
  exists content,
    resultContent (generate (Returns a_result) ready_to_ask) = Some content
    /\ occursIn "And the price?" content.
Proof.
  destruct (X18_result_export_holds_the_exchange a_result ready_to_ask)
    as (content & Hc & _ & _ & Hq); [vm_compute; reflexivity|].
  exists content. split; [exact Hc|]. apply Hq. simpl. auto.
Defined.

Lemma turnsText_app (total : nat) (xs ys : list ChatHistoryItem) :
  forall i,
    turnsText total i (xs ++ ys)
    = turnsText total i xs ++ turnsText total (i + List.length xs) ys.
Proof.
  induction xs as [|x xs IH]; intros i; cbn [turnsText app List.length].
  - now rewrite Nat.add_0_r.
  - rewrite IH, append_assoc, Nat.add_succ_r. reflexivity.
Qed.

(** The text of the turns up to the last but one does not depend on whether
    one more turn follows; that of the last gets the rule after it. *)
Lemma turnsText_one_more (items : list ChatHistoryItem) :
  forall i total,
    items <> [] -> (i + List.length items = total)%nat ->
    turnsText (S total) i items = turnsText total i items ++ turnRule.
Proof.
  induction items as [|x items IH]; intros i total Hne Hlen; [congruence|].
  cbn [List.length] in Hlen. destruct items as [|y items].
  - cbn [turnsText List.length] in *. rewrite !append_nil_r. unfold turnText.
    replace (i <? S total - 1)%nat with true by (symmetry; apply Nat.ltb_lt; lia).
    replace (i <? total - 1)%nat with false by (symmetry; apply Nat.ltb_ge; lia).
    rewrite append_nil_r. now rewrite !append_assoc.
  - change (turnsText (S total) i (x :: y :: items))
      with (turnText (S total) i x ++ turnsText (S total) (S i) (y :: items)).
    change (turnsText total i (x :: y :: items))
      with (turnText total i x ++ turnsText total (S i) (y :: items)).
    cbn [List.length] in *.
    rewrite (IH (S i) total); [|discriminate|lia].
    rewrite <- append_assoc. f_equal. unfold turnText.
    replace (i <? S total - 1)%nat with true by (symmetry; apply Nat.ltb_lt; lia).
    replace (i <? total - 1)%nat with true by (symmetry; apply Nat.ltb_lt; lia).
    reflexivity.
Qed.

(** X17.  The history is exported oldest exchange first.  When an exchange
    is made on a chat history that is not empty, the new export is the old
    one, then the rule, then the new exchange as the turn numbered one more
    than the last, with no rule after it. *)
Theorem X17_history_export_grows_at_the_end
    (now : string) (r : ProposalResult) (a : AppComponent) :
  isFormInvalid a = false -> chatHistory a <> [] ->
  exists old,
    historyContent now a = Some old
    /\ historyContent now (generate (Returns r) a)
       = Some (old ++ turnRule
               ++ turnText (S (List.length (chatHistory a)))
                    (List.length (chatHistory a))
                    {| item_question := question a; item_result := r |}).
Proof.
  intros H Hne. unfold generate. rewrite H. unfold historyContent.
  cbn [chatHistory set_generating set_showFollowUps set_chatHistory].
  change (chatHistory (set_error None (set_generating true (set_pdfToView None a))))
    with (chatHistory a).
  change (question (set_error None (set_generating true (set_pdfToView None a))))
    with (question a).
  destruct (chatHistory a) as [|x h] eqn:E; [congruence|].
  eexists. split; [reflexivity|]. f_equal.
  set (item := {| item_question := question a; item_result := r |}).
  set (n := List.length (x :: h)).
  change (List.length (item :: x :: h)) with (S n).
  change (rev (item :: x :: h)) with (rev (x :: h) ++ [item])%list.
  rewrite turnsText_app.
  rewrite (turnsText_one_more (rev (x :: h)) 0 n).
  - cbn [turnsText]. rewrite append_nil_r, length_rev. fold n.
    rewrite !append_assoc. reflexivity.
  - intros Hr. apply (f_equal (@List.length _)) in Hr.
    rewrite length_rev in Hr. discriminate.
  - rewrite length_rev. reflexivity.
Qed.

Lemma X17_witness :
  exists old,
    historyContent "today" asked_once = Some old
    /\ historyContent "today" (generate (Returns a_result) asked_once)
       = Some (old ++ turnRule
               ++ turnText 2 1
                    {| item_question := "What is the delivery schedule?";
                       item_result := a_result |}).
Proof.
  destruct (X17_history_export_grows_at_the_end "today" a_result asked_once)
    as (old & Hold & Hnew).
  - vm_compute. reflexivity.
  - vm_compute. discriminate.
  - exists old. split; [exact Hold | exact Hnew].
Defined.

End AppExtra.

(** * Properties of the proposal service *)

Module GeminiExtra.
Import Port Js JsText App Gemini AppRest AppExamples MoreExamples AppSpec AppExtra.

Local Open Scope string_scope.

(** ** Trimming *)

Lemma trimEnd_cons (c : ascii) (s : string) :
  trimEnd (String c s)
  = match trimEnd s with
    | EmptyString => if isWhite c then EmptyString else String c EmptyString
    | rest => String c rest
    end.
Proof. reflexivity. Qed.

Lemma trimStart_head (s : string) :
  trimStart s = "" \/ exists c r, trimStart s = String c r /\ isWhite c = false.
Proof.
  induction s as [|c s IH]; [now left|].
  cbn [trimStart]. destruct (isWhite c) eqn:W; [exact IH|].
  right. now exists c, s.
Qed.

Lemma trimEnd_head (c : ascii) (r : string) :
  isWhite c = false -> exists r', trimEnd (String c r) = String c r'.
Proof.
  intros W. rewrite trimEnd_cons. destruct (trimEnd r) as [|d r'].
  - rewrite W. now exists "".
  - now exists (String d r').
Qed.

(** What [trimStart] and [trimEnd] take off is white space. *)
Lemma trimStart_split (s : string) :
  exists w, s = w ++ trimStart s /\ allWhite w = true.
Proof.
  induction s as [|c s (w & E & W)]; [now exists ""|].
  cbn [trimStart]. destruct (isWhite c) eqn:Wc.
  - exists (String c w). cbn [append allWhite]. rewrite Wc, W. now rewrite <- E.
  - now exists "".
Qed.

Lemma trimEnd_split (s : string) :
  exists w, s = trimEnd s ++ w /\ allWhite w = true.
Proof.
  induction s as [|c s (w & E & W)]; [now exists ""|].
  rewrite trimEnd_cons. destruct (trimEnd s) as [|d r].
  - cbn [append] in E. subst w. destruct (isWhite c) eqn:Wc.
    + exists (String c s). cbn [append allWhite]. now rewrite Wc, W.
    + exists s. now split.
  - exists w. cbn [append] in *. now rewrite <- E.
Qed.

(** What [trimEnd] gives does not end in white space. *)
Lemma trimEnd_last (s : string) :
  forall r c, trimEnd s = r ++ String c "" -> isWhite c = false.
Proof.
  induction s as [|a s IH]; intros r c E.
  - destruct r; discriminate E.
  - rewrite trimEnd_cons in E. destruct (trimEnd s) as [|d t].
    + destruct (isWhite a) eqn:Wa; [destruct r; discriminate E|].
      destruct r as [|x r]; [now injection E as <- | ].
      injection E as _ E. destruct r; discriminate E.
    + destruct r as [|x r]; [discriminate E|].
      injection E as _ E. now apply (IH r c).
Qed.

(** What [trim] gives: the text without the white space at its two ends. *)
Lemma trim_spec (s : string) :
  (exists before after,
     s = before ++ trim s ++ after
     /\ allWhite before = true /\ allWhite after = true)
  /\ (forall c r, trim s = String c r -> isWhite c = false)
  /\ (forall r c, trim s = r ++ String c "" -> isWhite c = false).
Proof.
  unfold trim. split; [|split].
  - destruct (trimStart_split s) as (w1 & E1 & W1).
    destruct (trimEnd_split (trimStart s)) as (w2 & E2 & W2).
    exists w1, w2. split; [|now split]. now rewrite <- E2.
  - intros c r E. destruct (trimStart_head s) as [E0|(c0 & r0 & E0 & W)];
      rewrite E0 in E; [discriminate E|].
    destruct (trimEnd_head c0 r0 W) as [r' E']. rewrite E' in E.
    now injection E as <- _.
  - apply trimEnd_last.
Qed.

(** ** The errors *)

Lemma remap_cases (e : Thrown) :
  remap e = ErrorOf invalidKey \/ remap e = ErrorOf unavailable.
Proof.
  destruct e as [m| | |]; simpl; try now right.
  destruct (includes m "API key not valid"); [now left | now right].
Qed.

(** What [generateProposal] throws. *)
Lemma generateProposal_throws (b : Backend) (context question : string)
    (format : OutputFormat) (e : Thrown) :
  generateProposal b context question format = Throws e ->
  (e = ErrorOf missingKey /\ falsy (apiKey b) = true)
  \/ (falsy (apiKey b) = false
      /\ (e = ErrorOf invalidKey \/ e = ErrorOf unavailable)).
Proof.
  unfold generateProposal. destruct (falsy (apiKey b)) eqn:K.
  - intros [= <-]. left. now split.
  - destruct (attempt b context question format) as [e0|r]; [|discriminate].
    intros [= <-]. right. split; [reflexivity | apply remap_cases].
Qed.

(** X13.  Without an API key, or with an empty one, [generateProposal]
    throws the missing-key error whatever the model would answer.  With a
    key, whatever goes wrong (the API rejects, the response has no text, the
    JSON does not parse or lacks the answer or the follow-ups), the caller
    gets one of two errors: the invalid-key one or the generic one.  So a
    thrown value is always an [Error] with one of three fixed messages, and
    the message about the format of the response never reaches the caller. *)
Theorem X13_three_errors (b : Backend) (context question : string)
    (format : OutputFormat) :
  (falsy (apiKey b) = true ->
   generateProposal b context question format = Throws (ErrorOf missingKey))
  /\ (forall e,
        generateProposal b context question format = Throws e ->
        (e = ErrorOf missingKey /\ falsy (apiKey b) = true)
        \/ (falsy (apiKey b) = false
            /\ (e = ErrorOf invalidKey \/ e = ErrorOf unavailable)))
  /\ generateProposal b context question format <> Throws (ErrorOf badFormat)
  /\ generateProposal b context question format <> Throws NotAnError.
Proof.
  split; [|split; [|split]].
  - intros K. unfold generateProposal. now rewrite K.
  - apply generateProposal_throws.
  - intros H. apply generateProposal_throws in H as [[H _]|[_ [H|H]]];
      discriminate.
  - intros H. apply generateProposal_throws in H as [[H _]|[_ [H|H]]];
      discriminate.
Qed.

Lemma X13_witness :
  generateProposal no_key "knowledge" "question" Text = Throws (ErrorOf missingKey).
Proof.
  apply (X13_three_errors no_key "knowledge" "question" Text). reflexivity.
Defined.

(** X14.  With a key and the JSON format, when the model answers with a
    text, the result is decided by what [JSON.parse] makes of the trimmed
    text: an answer that is not empty together with an array of follow-ups
    is returned as it is; a missing or empty answer, or follow-ups that are
    no array, end in the generic error. *)
Theorem X14_json_answers_are_validated (b : Backend) (context question text : string) :
  falsy (apiKey b) = false ->
  generateContent b (requestFor context question Json) = Responds (Some text) ->
  forall a fs,
    parseJson b (trim text) = Parsed a fs ->
    generateProposal b context question Json
    = match a, fs with
      | Some a, Some fs =>
          if (a =? "")%string then Throws (ErrorOf unavailable)
          else Returns {| answer := a; followUpQuestions := fs |}
      | _, _ => Throws (ErrorOf unavailable)
      end.
Proof.
  intros K R a fs P. unfold generateProposal, attempt. rewrite K, R, P.
  destruct a as [a|], fs as [fs|]; try reflexivity.
  destruct (a =? "")%string; reflexivity.
Qed.

Lemma X14_witness :
  generateProposal answerless "knowledge" "question" Json
  = Throws (ErrorOf unavailable).
Proof.
  apply (X14_json_answers_are_validated answerless "knowledge" "question" "{}"
           eq_refl eq_refl None (Some []) eq_refl).
Defined.

(** X15.  With a key and the Markdown or the plain text format, when the
    model answers with a text, [generateProposal] returns, with no follow-up
    questions, the text without the white space at its two ends: the text is
    the answer between two runs of white space, and the answer neither
    begins nor ends with white space. *)
Theorem X15_plain_answers_are_trimmed (b : Backend) (context question text : string)
    (format : OutputFormat) :
  falsy (apiKey b) = false -> format <> Json ->
  generateContent b (requestFor context question format) = Responds (Some text) ->
  generateProposal b context question format
  = Returns {| answer := trim text; followUpQuestions := [] |}
  /\ (exists before after,
        text = before ++ trim text ++ after
        /\ allWhite before = true /\ allWhite after = true)
  /\ (forall c r, trim text = String c r -> isWhite c = false)
  /\ (forall r c, trim text = r ++ String c "" -> isWhite c = false).
Proof.
  intros K F R. split; [|apply trim_spec].
  unfold generateProposal, attempt. rewrite K.
  destruct format; [congruence | |]; now rewrite R.
Qed.

Lemma X15_witness :
  generateProposal nbsp_model "knowledge" "question" Markdown
  = Returns {| answer := "Six weeks."; followUpQuestions := [] |}.
Proof.
  destruct (X15_plain_answers_are_trimmed nbsp_model "knowledge" "question"
              (NBSP ++ " Six weeks." ++ NBSP ++ LF) Markdown) as [H _];
    [reflexivity | discriminate | reflexivity | exact H].
Defined.

Lemma occursIn_promptBody (context question : string) :
  occursIn context (promptBody context question)
  /\ occursIn question (promptBody context question).
Proof.
  unfold promptBody. split.
  - do 5 apply occursIn_app_r. apply occursIn_app_l, occursIn_refl.
  - do 16 apply occursIn_app_r. apply occursIn_app_l, occursIn_refl.
Qed.

(** X16.  [generateProposal] sends one request: what it does depends on
    the model only through the reply to that request.  The request names the
    model [gemini-2.5-flash], asks for the response schema exactly with the
    JSON format, and its prompt holds the knowledge text and the question as
    they were given. *)
Theorem X16_one_request_with_context_and_question
    (b1 b2 : Backend) (context question : string) (format : OutputFormat) :
  apiKey b1 = apiKey b2 ->
  (forall s, parseJson b1 s = parseJson b2 s) ->
  generateContent b1 (requestFor context question format)
  = generateContent b2 (requestFor context question format) ->
  generateProposal b1 context question format
  = generateProposal b2 context question format
  /\ model (requestFor context question format) = modelName
  /\ (withSchema (requestFor context question format) = true <-> format = Json)
  /\ occursIn context (contents (requestFor context question format))
  /\ occursIn question (contents (requestFor context question format)).
Proof.
  intros K P R. destruct (occursIn_promptBody context question) as [Hc Hq].
  split; [|split; [|split; [|split]]].
  - unfold generateProposal, attempt. rewrite K, R.
    destruct format; try reflexivity.
    destruct (generateContent b2 _) as [e|[text|]]; try reflexivity.
    now rewrite P.
  - destruct format; reflexivity.
  - destruct format; simpl; split; congruence.
  - destruct format; cbn [requestFor contents]; unfold jsonPrompt, plainPrompt;
      now apply occursIn_app_l.
  - destruct format; cbn [requestFor contents]; unfold jsonPrompt, plainPrompt;
      now apply occursIn_app_l.
Qed.

Lemma X16_witness :
  occursIn "knowledge" (contents (requestFor "knowledge" "question" Json)).
Proof.
  apply (X16_one_request_with_context_and_question
           answerless answerless "knowledge" "question" Json);
    reflexivity.
Defined.

(** X11.  With the service of the repository behind it, a [generate] on a
    valid form ends in one of two ways: an exchange more in the chat history
    and no error, or the chat history as it was and one of the three fixed
    errors of the service.  The fallback message for an error without a
    message is never shown. *)
Theorem X11_generate_with_the_service (b : Backend) (a : AppComponent) :
  isFormInvalid a = false ->
  (List.length (chatHistory (generateWith b a)) = S (List.length (chatHistory a))
   /\ error (generateWith b a) = None)
  \/ (chatHistory (generateWith b a) = chatHistory a
      /\ (error (generateWith b a) = Some missingKey
          \/ error (generateWith b a) = Some invalidKey
          \/ error (generateWith b a) = Some unavailable)
      /\ error (generateWith b a) <> Some unknownError).
Proof.
  intros H. unfold generateWith, generate. rewrite H.
  pose proof (generateProposal_throws b (knowledgeBase a) (question a)
                (outputFormat a)) as Hthrow.
  destruct (generateProposal b (knowledgeBase a) (question a) (outputFormat a))
    as [r|e].
  - left. split; reflexivity.
  - right.
    destruct (Hthrow e eq_refl) as [[-> _]|[_ [->| ->]]];
      (split; [reflexivity | split; [auto | discriminate]]).
Qed.

Lemma X11_witness :
  error (generateWith no_key ready_to_ask) <> Some unknownError.
Proof.
  destruct (X11_generate_with_the_service no_key ready_to_ask)
    as [[_ H]|(_ & _ & H)].
  - vm_compute. reflexivity.
  - rewrite H. discriminate.
  - exact H.
Defined.

End GeminiExtra.

(** * More properties of the viewer session *)

Module ViewerExtra.
Import Port Viewer ViewerExamples ViewerMore MoreExamples ViewerSpec.

Local Open Scope Z_scope.

(** ** What is on the canvas *)

(** [ShownInv] only looks at the canvas, the cancelled tasks and the
    tracked one. *)
Lemma ShownInv_frame (w w' : World) :
  image (canvas w') = image (canvas w) -> cancelled w' = cancelled w ->
  renderTask (comp w') = renderTask (comp w) ->
  ShownInv w -> ShownInv w'.
Proof.
  intros Hi Hc Hr H t0 Ht0. unfold isCancelled. rewrite Hi in Ht0. rewrite Hc, Hr.
  exact (H t0 Ht0).
Qed.

Lemma ShownInv_renderPage (p : Z) (w : World) : ShownInv w -> ShownInv (renderPage p w).
Proof.
  intros H. unfold renderPage.
  destruct (pdfDoc (comp w)) as [d|]; [|exact H].
  destruct ((p <? 1) || (p >? totalPages (comp w))); [exact H|].
  destruct (renderTask (comp w)) as [t|] eqn:Ht.
  - intros t0 Ht0. cbn [spawn cancel canvas comp with_fresh with_pending
                        with_cancelled] in Ht0 |- *.
    destruct (H t0 Ht0) as [Hc Hid]. split.
    + unfold isCancelled in *.
      change (cancelled (spawn (RenderGetPage d p) (cancel t w)))
        with (cancelled w ++ [task_id t])%list.
      rewrite existsb_app, Hc. simpl. rewrite orb_false_r.
      apply Nat.eqb_neq. intros E. apply (Hid t); [exact Ht | now symmetry].
    + change (renderTask (comp (spawn (RenderGetPage d p) (cancel t w))))
        with (renderTask (comp w)). exact Hid.
  - apply (ShownInv_frame w); try reflexivity. exact H.
Qed.

Lemma ShownInv_upd (g : Component -> Component) (w : World) :
  (forall c, renderTask (g c) = renderTask c) -> ShownInv w -> ShownInv (upd g w).
Proof.
  intros Hg H. apply (ShownInv_frame w); try reflexivity; [|exact H].
  cbn [upd comp with_comp]. apply Hg.
Qed.

Lemma ShownInv_step (l : Label) (w w' : World) :
  step l w = Some w' -> ShownInv w -> ShownInv w'.
Proof.
  intros Hstep H.
  destruct l as [f| | | | | |id ok]; simpl in Hstep.
  - injection Hstep as <-. apply (ShownInv_frame w); try exact H;
      unfold loadPdf; cbn [upd comp with_comp with_calls];
      destruct (pdfDoc (resetView (comp w))); reflexivity.
  - injection Hstep as <-. unfold nextPage.
    destruct (currentPage (comp w) <? totalPages (comp w)); [|exact H].
    apply ShownInv_renderPage, ShownInv_upd; [reflexivity | exact H].
  - injection Hstep as <-. unfold prevPage.
    destruct (currentPage (comp w) >? 1); [|exact H].
    apply ShownInv_renderPage, ShownInv_upd; [reflexivity | exact H].
  - injection Hstep as <-. unfold zoomIn.
    destruct (Qltb (scale (comp w)) maxScale); [|exact H].
    apply ShownInv_renderPage, ShownInv_upd; [reflexivity | exact H].
  - injection Hstep as <-. unfold zoomOut.
    destruct (Qltb minScale (scale (comp w))); [|exact H].
    apply ShownInv_renderPage, ShownInv_upd; [reflexivity | exact H].
  - injection Hstep as <-. unfold ngOnDestroy.
    destruct (pdfDoc (comp w)); [|exact H].
    apply (ShownInv_frame w); try reflexivity. exact H.
  - destruct (take id (pending w)) as [[k rest]|]; [|discriminate].
    injection Hstep as <-.
    assert (H0 : ShownInv (with_pending rest w))
      by (apply (ShownInv_frame w); try reflexivity; exact H).
    set (w0 := with_pending rest w) in *.
    destruct k as [f|f|f|d p|t]; cbn [resume].
    + apply (ShownInv_frame w0); try reflexivity. exact H0.
    + destruct ok; [destruct (data f)|];
        (apply (ShownInv_frame w0); [reflexivity | reflexivity | reflexivity | exact H0]).
    + destruct ok; [destruct (data f) as [| |pages]|];
        try (apply (ShownInv_frame w0);
             [reflexivity | reflexivity | reflexivity | exact H0]).
      unfold loadDone. apply ShownInv_upd; [reflexivity|].
      apply ShownInv_renderPage.
      apply (ShownInv_frame w0); try reflexivity. exact H0.
    + destruct ok.
      * intros t0 Ht0. discriminate Ht0.
      * apply (ShownInv_frame w0); try reflexivity. exact H0.
    + destruct (isCancelled t w0) eqn:C.
      * apply (ShownInv_frame w0); try reflexivity. exact H0.
      * destruct ok.
        -- intros t0 Ht0. cbn [finishRender upd canvas comp with_comp with_canvas
                               image] in Ht0.
           injection Ht0 as <-. split; [exact C|].
           intros t' Ht'. discriminate Ht'.
        -- apply (ShownInv_frame w0); try reflexivity. exact H0.
Qed.

(** X19.  In every world the component can be in, the drawing that the
    canvas shows is that of a render task [cancel()] was never called on:
    once a render is cancelled, its drawing does not reach the canvas. *)
Theorem X19_cancelled_renders_never_show (w : World) (t : Task) :
  Reachable w -> image (canvas w) = Some t -> isCancelled t w = false.
Proof.
  intros Hw Ht.
  assert (H : ShownInv w).
  { clear t Ht. induction Hw as [|l w w' _ IH _ Hstep].
    - intros t0 Ht0. discriminate Ht0.
    - now apply (ShownInv_step l w w'). }
  now apply (H t).
Qed.

Lemma X19_witness :
  option_map task_id (image (canvas (finalOf two_zooms))) = Some 10%nat
  /\ cancelled (finalOf two_zooms) = [7%nat]
  /\ isCancelled (mkTask 10 (b_handle 2) 1
                    (Qmin maxScale (Qmin maxScale (defaultScale + scaleStep) + scaleStep)))
       (finalOf two_zooms) = false.
Proof.
  split; [vm_compute; reflexivity|]. split; [vm_compute; reflexivity|].
  apply (X19_cancelled_renders_never_show (finalOf two_zooms)).
  - apply (run_reachable two_zooms initial); [constructor | vm_compute; reflexivity].
  - vm_compute. reflexivity.
Defined.

(** ** Loading, ready, failed *)

Lemma StatusInv_loads (w : World) : StatusInv w -> (loadsPending w <= 1)%nat.
Proof.
  unfold StatusInv, loadsPending. destruct (loadConts w) as [|k [|k' ks]]; simpl;
    intros H; [lia | lia | contradiction].
Qed.

Lemma calls_resume (k : Cont) (ok : bool) (w : World) :
  calls (resume k ok w) = calls w.
Proof. apply resume_logs. Qed.

(** A turn with no load overlapping another keeps [StatusInv]. *)
Lemma StatusInv_step (l : Label) (w w' : World) :
  oneAtATime l w = true -> step l w = Some w' -> StatusInv w -> StatusInv w'.
Proof.
  intros Hrule Hstep Hinv. pose proof (StatusInv_loads w Hinv) as Hle.
  assert (Hview : forall (g : Component -> Component) (p : Z),
            (forall c, isLoading (g c) = isLoading c /\ error (g c) = error c
                       /\ totalPages (g c) = totalPages c
                       /\ pdfDoc (g c) = pdfDoc c) ->
            StatusInv (renderPage p (upd g w))).
  { intros g p Hg. unfold StatusInv in *.
    destruct (renderPage_frame p (upd g w)) as (Hc & _ & Hca & _).
    rewrite loadConts_renderPage, Hc, Hca.
    change (loadConts (upd g w)) with (loadConts w).
    change (calls (upd g w)) with (calls w).
    change (comp (upd g w)) with (g (comp w)).
    destruct (Hg (comp w)) as (-> & -> & -> & ->). exact Hinv. }
  destruct l as [f| | | | | |id ok]; simpl in Hstep, Hrule.
  - injection Hstep as <-. apply Nat.eqb_eq in Hrule.
    unfold loadsPending in Hrule. apply length_zero_iff_nil in Hrule.
    unfold StatusInv. rewrite loadConts_loadPdf, comp_loadPdf, Hrule.
    cbn [app]. change (pdfDoc (resetView (comp w))) with (pdfDoc (comp w)).
    destruct (pdfDoc (comp w)); repeat split.
  - injection Hstep as <-. unfold nextPage.
    destruct (currentPage (comp w) <? totalPages (comp w)); [|exact Hinv].
    apply Hview. intros c. repeat split.
  - injection Hstep as <-. unfold prevPage.
    destruct (currentPage (comp w) >? 1); [|exact Hinv].
    apply Hview. intros c. repeat split.
  - injection Hstep as <-. unfold zoomIn.
    destruct (Qltb (scale (comp w)) maxScale); [|exact Hinv].
    apply Hview. intros c. repeat split.
  - injection Hstep as <-. unfold zoomOut.
    destruct (Qltb minScale (scale (comp w))); [|exact Hinv].
    apply Hview. intros c. repeat split.
  - injection Hstep as <-. unfold ngOnDestroy.
    destruct (pdfDoc (comp w)); exact Hinv.
  - destruct (take id (pending w)) as [[k rest]|] eqn:Htake; [|discriminate].
    injection Hstep as <-.
    pose proof (take_single_load id w k rest Htake Hle) as Hk.
    unfold StatusInv in *. rewrite loadConts_resume, comp_resume, calls_resume.
    cbn [comp calls with_pending].
    destruct k as [f|f|f|d p|t]; cbn [isLoad] in Hk.
    + destruct Hk as [Hw ->]. rewrite Hw in Hinv.
      destruct Hinv as (H1 & H2 & H3 & _). cbn [app]. repeat split; assumption.
    + destruct Hk as [Hw ->]. rewrite Hw in Hinv.
      destruct Hinv as (H1 & H2 & H3 & H4).
      destruct ok; [destruct (data f)|]; cbn [app]; repeat split; assumption.
    + destruct Hk as [Hw ->]. rewrite Hw in Hinv.
      destruct Hinv as (H1 & H2 & H3 & H4).
      destruct ok; [destruct (data f) as [| |pages]|]; cbn [app];
        try (repeat split; assumption).
      split; [reflexivity|]. cbn [error set_isLoading set_totalPages set_pdfDoc].
      intros He. congruence.
    + rewrite Hk, app_nil_r. destruct ok; exact Hinv.
    + rewrite Hk, app_nil_r.
      destruct (isCancelled t _); [exact Hinv|]. destruct ok; exact Hinv.
Qed.

Lemma StatusInv_reachable (w : World) : ReachableUnder oneAtATime w -> StatusInv w.
Proof.
  induction 1 as [|l w w' _ IH Hrule Hstep].
  - split; [intros H; now contradiction H | intros H; now contradiction H].
  - now apply (StatusInv_step l w w').
Qed.

(** X20.  As long as [loadPdf] is not called while an earlier call is
    still running: while a call runs the component is loading, shows no error
    and has no page count; once the first call was made and none runs, the
    component is not loading; and whenever an error is shown, the component
    is not loading, no document is attached and there is no page count. *)
Theorem X20_loading_ready_failed (w : World) :
  ReachableUnder oneAtATime w ->
  (loadsPending w = 1%nat ->
   isLoading (comp w) = true /\ error (comp w) = None /\ totalPages (comp w) = 0)
  /\ (loadsPending w = 0%nat -> calls w <> [] -> isLoading (comp w) = false)
  /\ (error (comp w) <> None -> calls w <> [] ->
      isLoading (comp w) = false
      /\ pdfDoc (comp w) = None /\ totalPages (comp w) = 0).
Proof.
  intros Hw. pose proof (StatusInv_reachable w Hw) as H.
  unfold StatusInv, loadsPending in *.
  destruct (loadConts w) as [|k [|k' ks]]; [| |contradiction]; simpl.
  - destruct H as [H1 H2]. split; [discriminate|]. split; [auto|].
    intros He Hc. destruct (H2 He) as [Hd Ht]. auto.
  - destruct H as (H1 & H2 & H3 & _). split; [auto|]. split; [discriminate|].
    intros He. congruence.
Qed.

Lemma X20_witness :
  error (comp (finalOf bad_load)) = Some loadFailure
  /\ isLoading (comp (finalOf bad_load)) = false
  /\ pdfDoc (comp (finalOf bad_load)) = None.
Proof.
  assert (Hr : ReachableUnder oneAtATime (finalOf bad_load)).
  { apply (runUnder_reachable oneAtATime bad_load initial);
      [constructor | vm_compute; reflexivity]. }
  destruct (X20_loading_ready_failed (finalOf bad_load) Hr) as (_ & _ & H).
  split; [vm_compute; reflexivity|].
  destruct H as (Hl & Hd & _).
  - vm_compute. discriminate.
  - vm_compute. discriminate.
  - split; assumption.
Defined.

(** ** Clicking through *)

Lemma clicks_S (n : nat) (button : World -> World) (w : World) :
  clicks (S n) button w = button (clicks n button w).
Proof. reflexivity. Qed.

Lemma pages_nextPage (w : World) :
  totalPages (comp (nextPage w)) = totalPages (comp w)
  /\ currentPage (comp (nextPage w))
     = if currentPage (comp w) <? totalPages (comp w)
       then currentPage (comp w) + 1 else currentPage (comp w).
Proof.
  unfold nextPage. destruct (currentPage (comp w) <? totalPages (comp w));
    [|split; reflexivity].
  rewrite comp_renderPage. split; reflexivity.
Qed.

Lemma pages_prevPage (w : World) :
  totalPages (comp (prevPage w)) = totalPages (comp w)
  /\ currentPage (comp (prevPage w))
     = if currentPage (comp w) >? 1
       then currentPage (comp w) - 1 else currentPage (comp w).
Proof.
  unfold prevPage. destruct (currentPage (comp w) >? 1); [|split; reflexivity].
  rewrite comp_renderPage. split; reflexivity.
Qed.

(** X21.  Clicking next [n] times from a page within the document leads to
    the page [n] further, or to the last page when there are not as many
    left; clicking previous [n] times from page 1 or later leads [n] pages
    back, or to page 1.  The page count is not touched. *)
Theorem X21_page_buttons_clamp (n : nat) (w : World) :
  (currentPage (comp w) <= totalPages (comp w) ->
   currentPage (comp (clicks n nextPage w))
   = Z.min (totalPages (comp w)) (currentPage (comp w) + Z.of_nat n)
   /\ totalPages (comp (clicks n nextPage w)) = totalPages (comp w))
  /\ (1 <= currentPage (comp w) ->
      currentPage (comp (clicks n prevPage w))
      = Z.max 1 (currentPage (comp w) - Z.of_nat n)
      /\ totalPages (comp (clicks n prevPage w)) = totalPages (comp w)).
Proof.
  split; intros H.
  - induction n as [|n [IHc IHt]]; [split; [simpl; lia | reflexivity]|].
    rewrite clicks_S. destruct (pages_nextPage (clicks n nextPage w)) as [Ht Hc].
    rewrite Ht, Hc, IHc, IHt. split; [|reflexivity].
    destruct (Z.ltb_spec (Z.min (totalPages (comp w))
                            (currentPage (comp w) + Z.of_nat n))
                         (totalPages (comp w))); lia.
  - induction n as [|n [IHc IHt]]; [split; [simpl; lia | reflexivity]|].
    rewrite clicks_S. destruct (pages_prevPage (clicks n prevPage w)) as [Ht Hc].
    rewrite Ht, Hc, IHc, IHt. split; [|reflexivity].
    rewrite Z.gtb_ltb.
    destruct (Z.ltb_spec 1 (Z.max 1 (currentPage (comp w) - Z.of_nat n))); lia.
Qed.

Lemma X21_witness :
  currentPage (comp (clicks 5 nextPage (finalOf b_shown))) = 3
  /\ currentPage (comp (clicks 5 prevPage (finalOf b_shown))) = 1.
Proof.
  destruct (X21_page_buttons_clamp 5 (finalOf b_shown)) as [Hn Hp].
  split.
  - destruct Hn as [H _]; [vm_compute; discriminate|].
    rewrite H. vm_compute. reflexivity.
  - destruct Hp as [H _]; [vm_compute; discriminate|].
    rewrite H. vm_compute. reflexivity.
Defined.

(** Going to the next page and back, or back and forth, returns to the page
    one was on, whenever the first click has an effect. *)
Lemma page_round_trips (w : World) :
  (1 <= currentPage (comp w) < totalPages (comp w) ->
   currentPage (comp (prevPage (nextPage w))) = currentPage (comp w))
  /\ (1 < currentPage (comp w) <= totalPages (comp w) ->
      currentPage (comp (nextPage (prevPage w))) = currentPage (comp w)).
Proof.
  split; intros H.
  - destruct (pages_prevPage (nextPage w)) as [_ ->].
    destruct (pages_nextPage w) as [_ ->].
    replace (currentPage (comp w) <? totalPages (comp w)) with true
      by (symmetry; apply Z.ltb_lt; lia).
    replace (currentPage (comp w) + 1 >? 1) with true
      by (symmetry; rewrite Z.gtb_ltb; apply Z.ltb_lt; lia).
    lia.
  - destruct (pages_nextPage (prevPage w)) as [_ ->].
    destruct (pages_prevPage w) as [Ht ->]. rewrite Ht.
    replace (currentPage (comp w) >? 1) with true
      by (symmetry; rewrite Z.gtb_ltb; apply Z.ltb_lt; lia).
    replace (currentPage (comp w) - 1 <? totalPages (comp w)) with true
      by (symmetry; apply Z.ltb_lt; lia).
    lia.
Qed.

Local Open Scope Q_scope.

Lemma scale_zoomIn (w : World) :
  scale (comp (zoomIn w))
  = if Qltb (scale (comp w)) maxScale
    then Qmin maxScale (scale (comp w) + scaleStep) else scale (comp w).
Proof. apply (scale_step ZoomIn w (zoomIn w)). reflexivity. Qed.

Lemma scale_zoomOut (w : World) :
  scale (comp (zoomOut w))
  = if Qltb minScale (scale (comp w))
    then Qmax minScale (scale (comp w) - scaleStep) else scale (comp w).
Proof. apply (scale_step ZoomOut w (zoomOut w)). reflexivity. Qed.

Lemma ScaleInv_zoomIn (w : World) :
  ScaleInv (scale (comp w)) -> ScaleInv (scale (comp (zoomIn w))).
Proof. apply (ScaleInv_step ZoomIn w (zoomIn w)). reflexivity. Qed.

Lemma ScaleInv_zoomOut (w : World) :
  ScaleInv (scale (comp w)) -> ScaleInv (scale (comp (zoomOut w))).
Proof. apply (ScaleInv_step ZoomOut w (zoomOut w)). reflexivity. Qed.

(** X23.  Zooming in and out again, or out and in again, returns to the
    scale one had, and going to the next page and back, or back and forth,
    returns to the page one was on, whenever the first click has an effect. *)
Theorem X23_round_trips (w : World) :
  Reachable w ->
  (scale (comp w) < maxScale -> scale (comp (zoomOut (zoomIn w))) == scale (comp w))
  /\ (minScale < scale (comp w) ->
      scale (comp (zoomIn (zoomOut w))) == scale (comp w))
  /\ ((1 <= currentPage (comp w) < totalPages (comp w))%Z ->
      currentPage (comp (prevPage (nextPage w))) = currentPage (comp w))
  /\ ((1 < currentPage (comp w) <= totalPages (comp w))%Z ->
      currentPage (comp (nextPage (prevPage w))) = currentPage (comp w)).
Proof.
  intros Hw. pose proof (ScaleInv_reachable w Hw) as Hinv.
  split; [|split; [|apply page_round_trips]].
  - intros Hlt. destruct (zoomIn_scale _ Hinv Hlt) as [Hup Hinv'].
    assert (Hin : scale (comp (zoomIn w)) == scale (comp w) + scaleStep).
    { rewrite scale_zoomIn. apply Qltb_lt in Hlt. now rewrite Hlt. }
    assert (Hinv1 : ScaleInv (scale (comp (zoomIn w)))) by now apply ScaleInv_zoomIn.
    assert (Hgt : minScale < scale (comp (zoomIn w))).
    { rewrite Hin. destruct Hinv as [[Hlo _] _].
      apply Qle_lt_trans with (scale (comp w)); [assumption|].
      rewrite <- (Qplus_0_r (scale (comp w))) at 1.
      apply Qplus_lt_r. reflexivity. }
    destruct (zoomOut_scale _ Hinv1 Hgt) as [Hdown _].
    rewrite scale_zoomOut. apply Qltb_lt in Hgt. rewrite Hgt, Hdown, Hin.
    unfold Qminus. rewrite <- Qplus_assoc, Qplus_opp_r. apply Qplus_0_r.
  - intros Hgt. destruct (zoomOut_scale _ Hinv Hgt) as [Hdown Hinv'].
    assert (Hout : scale (comp (zoomOut w)) == scale (comp w) - scaleStep).
    { rewrite scale_zoomOut. apply Qltb_lt in Hgt. now rewrite Hgt. }
    assert (Hinv1 : ScaleInv (scale (comp (zoomOut w)))) by now apply ScaleInv_zoomOut.
    assert (Hlt : scale (comp (zoomOut w)) < maxScale).
    { rewrite Hout. destruct Hinv as [[_ Hhi] _].
      apply Qlt_le_trans with (scale (comp w)); [|assumption].
      rewrite <- (Qplus_0_r (scale (comp w))) at 2. unfold Qminus.
      apply Qplus_lt_r. reflexivity. }
    destruct (zoomIn_scale _ Hinv1 Hlt) as [Hup _].
    rewrite scale_zoomIn. apply Qltb_lt in Hlt. rewrite Hlt, Hup, Hout.
    unfold Qminus. rewrite <- Qplus_assoc.
    rewrite (Qplus_comm (- scaleStep)), Qplus_opp_r. apply Qplus_0_r.
Qed.

Lemma X23_witness :
  scale (comp (zoomOut (zoomIn (finalOf b_shown)))) == scale (comp (finalOf b_shown)).
Proof.
  destruct (X23_round_trips (finalOf b_shown)) as [H _].
  - apply (run_reachable b_shown initial); [constructor | vm_compute; reflexivity].
  - apply H. vm_compute. reflexivity.
Defined.

Lemma quarters_S (n : nat) : Z.of_nat (S n) # 4 == (Z.of_nat n # 4) + scaleStep.
Proof. rewrite quarter_succ, Nat2Z.inj_succ. reflexivity. Qed.

Lemma quarters_0_r (s : Q) : s + (Z.of_nat 0 # 4) == s.
Proof.
  change (Z.of_nat 0 # 4) with (0 # 4).
  assert (E : 0 # 4 == 0) by reflexivity.
  rewrite E. apply Qplus_0_r.
Qed.

Lemma quarters_0_l (s : Q) : s - (Z.of_nat 0 # 4) == s.
Proof.
  change (Z.of_nat 0 # 4) with (0 # 4).
  assert (E : 0 # 4 == 0) by reflexivity.
  unfold Qminus. rewrite E. apply Qplus_0_r.
Qed.

(** One more zoom-in on a scale that is [t] capped at the largest scale
    gives [t] and a quarter, capped. *)
Lemma zoomIn_capped (s t : Q) :
  ScaleInv s -> s == Qmin maxScale t ->
  (if Qltb s maxScale then Qmin maxScale (s + scaleStep) else s)
  == Qmin maxScale (t + scaleStep).
Proof.
  intros Hinv Hs. destruct (Qltb s maxScale) eqn:E.
  - apply Qltb_lt in E. destruct (zoomIn_scale s Hinv E) as [Hup [[_ Hhi] _]].
    destruct (Qlt_le_dec maxScale t) as [Hlt|Hle].
    + exfalso. rewrite (Q.min_l maxScale t) in Hs by now apply Qlt_le_weak.
      rewrite Hs in E. now apply (Qlt_irrefl maxScale).
    + rewrite (Q.min_r maxScale t Hle) in Hs. rewrite Hup, Hs.
      symmetry. apply Q.min_r. now rewrite <- Hs.
  - apply Qltb_ge in E. destruct Hinv as [[_ Hhi] _].
    assert (Hmax : s == maxScale) by now apply Qle_antisym.
    assert (Hle : maxScale <= t).
    { destruct (Qlt_le_dec t maxScale) as [Hlt|Hle]; [|exact Hle]. exfalso.
      rewrite (Q.min_r maxScale t) in Hs by now apply Qlt_le_weak.
      rewrite <- Hs, Hmax in Hlt. now apply (Qlt_irrefl maxScale). }
    rewrite Hmax. symmetry. apply Q.min_l.
    apply Qle_trans with t; [exact Hle|].
    rewrite <- (Qplus_0_r t) at 1. apply Qplus_le_r. discriminate.
Qed.

Lemma zoomOut_capped (s t : Q) :
  ScaleInv s -> s == Qmax minScale t ->
  (if Qltb minScale s then Qmax minScale (s - scaleStep) else s)
  == Qmax minScale (t - scaleStep).
Proof.
  intros Hinv Hs. destruct (Qltb minScale s) eqn:E.
  - apply Qltb_lt in E. destruct (zoomOut_scale s Hinv E) as [Hdown [[Hlo _] _]].
    destruct (Qlt_le_dec t minScale) as [Hlt|Hle].
    + exfalso. rewrite (Q.max_l minScale t) in Hs by now apply Qlt_le_weak.
      rewrite Hs in E. now apply (Qlt_irrefl minScale).
    + rewrite (Q.max_r minScale t Hle) in Hs. rewrite Hdown, Hs.
      symmetry. apply Q.max_r. now rewrite <- Hs.
  - apply Qltb_ge in E. destruct Hinv as [[Hlo _] _].
    assert (Hmin : s == minScale) by now apply Qle_antisym.
    assert (Hle : t <= minScale).
    { destruct (Qlt_le_dec minScale t) as [Hlt|Hle]; [|exact Hle]. exfalso.
      rewrite (Q.max_r minScale t) in Hs by now apply Qlt_le_weak.
      rewrite <- Hs, Hmin in Hlt. now apply (Qlt_irrefl minScale). }
    rewrite Hmin. symmetry. apply Q.max_l.
    apply Qle_trans with t; [|exact Hle].
    rewrite <- (Qplus_0_r t) at 2. unfold Qminus. apply Qplus_le_r. discriminate.
Qed.

(** X22.  In every world the component can be in, clicking zoom-in [n]
    times gives the scale plus [n] quarters, capped at 3.0, and clicking
    zoom-out [n] times gives the scale minus [n] quarters, held at 0.5. *)
Theorem X22_zoom_buttons_clamp (n : nat) (w : World) :
  Reachable w ->
  scale (comp (clicks n zoomIn w))
  == Qmin maxScale (scale (comp w) + (Z.of_nat n # 4))
  /\ scale (comp (clicks n zoomOut w))
     == Qmax minScale (scale (comp w) - (Z.of_nat n # 4)).
Proof.
  intros Hw. pose proof (ScaleInv_reachable w Hw) as Hinv. split.
  - assert (H : ScaleInv (scale (comp (clicks n zoomIn w)))
                /\ scale (comp (clicks n zoomIn w))
                   == Qmin maxScale (scale (comp w) + (Z.of_nat n # 4))).
    { induction n as [|n [IHi IHs]].
      - split; [exact Hinv|]. simpl clicks. symmetry.
        rewrite (quarters_0_r (scale (comp w))). apply Q.min_r. apply Hinv.
      - rewrite clicks_S. split; [now apply ScaleInv_zoomIn|].
        rewrite scale_zoomIn, quarters_S, Qplus_assoc.
        now apply zoomIn_capped. }
    apply H.
  - assert (H : ScaleInv (scale (comp (clicks n zoomOut w)))
                /\ scale (comp (clicks n zoomOut w))
                   == Qmax minScale (scale (comp w) - (Z.of_nat n # 4))).
    { induction n as [|n [IHi IHs]].
      - split; [exact Hinv|]. simpl clicks. symmetry.
        rewrite (quarters_0_l (scale (comp w))). apply Q.max_r. apply Hinv.
      - rewrite clicks_S. split; [now apply ScaleInv_zoomOut|].
        rewrite scale_zoomOut, quarters_S.
        assert (E : scale (comp w) - ((Z.of_nat n # 4) + scaleStep)
                    == scale (comp w) - (Z.of_nat n # 4) - scaleStep)
          by (unfold Qminus; rewrite Qopp_plus, Qplus_assoc; reflexivity).
        rewrite E. now apply zoomOut_capped. }
    apply H.
Qed.

Lemma X22_witness :
  scale (comp (clicks 9 zoomIn (finalOf b_shown))) == maxScale.
Proof.
  destruct (X22_zoom_buttons_clamp 9 (finalOf b_shown)) as [H _].
  - apply (run_reachable b_shown initial); [constructor | vm_compute; reflexivity].
  - rewrite H. vm_compute. reflexivity.
Defined.

Local Close Scope Q_scope.

(** ** Tearing down *)

Lemma IdsInv_step (l : Label) (w w' : World) :
  step l w = Some w' -> IdsInv w -> IdsInv w'.
Proof.
  intros Hstep [H1 H2].
  assert (Hview : match l with
                  | NextPage | PrevPage | ZoomIn | ZoomOut => True
                  | _ => False
                  end -> IdsInv w').
  { intros Hl.
    destruct (view_command_frame l w w' Hl Hstep)
      as (F1 & _ & _ & F4 & _ & _ & _ & F8).
    split.
    - intros id Hin. rewrite F1 in Hin. specialize (H1 id Hin). lia.
    - intros d Hd. rewrite F4 in Hd. specialize (H2 d Hd). lia. }
  destruct l as [f| | | | | |id ok];
    [| now apply Hview | now apply Hview | now apply Hview | now apply Hview | |].
  - simpl in Hstep. injection Hstep as <-.
    destruct (loadPdf_logs f w) as (_ & _ & Ld & Lf).
    split.
    + intros id Hin. rewrite Ld in Hin. apply in_app_or in Hin as [Hin|Hin].
      * specialize (H1 id Hin). lia.
      * destruct (pdfDoc (comp w)) as [d|] eqn:E; [|contradiction].
        destruct Hin as [<-|[]]. specialize (H2 d eq_refl). lia.
    + intros d Hd. rewrite comp_loadPdf in Hd.
      change (pdfDoc (resetView (comp w))) with (pdfDoc (comp w)) in Hd.
      specialize (H2 d Hd). lia.
  - simpl in Hstep. injection Hstep as <-. unfold ngOnDestroy.
    destruct (pdfDoc (comp w)) as [d|] eqn:E.
    2: { split; [exact H1 | intros d Hd; rewrite E in Hd; discriminate Hd]. }
    split.
    + intros id Hin. change (fresh (destroy d w)) with (fresh w).
      change (destroyed (destroy d w)) with (destroyed w ++ [doc_id d]) in Hin.
      apply in_app_or in Hin as [Hin|[<-|[]]]; [now apply H1 | now apply H2].
    + intros d0 Hd. change (pdfDoc (comp (destroy d w))) with (pdfDoc (comp w)) in Hd.
      change (fresh (destroy d w)) with (fresh w).
      apply H2. now rewrite <- E.
  - simpl in Hstep.
    destruct (take id (pending w)) as [[k rest]|]; [|discriminate].
    injection Hstep as <-.
    destruct (resume_logs k ok (with_pending rest w)) as (_ & Ld & _ & Lf & Lf').
    pose proof (comp_resume k ok (with_pending rest w)) as Hc.
    cbn [comp destroyed fresh with_pending] in *.
    split.
    + intros i Hin. rewrite Ld in Hin. specialize (H1 i Hin). lia.
    + intros d Hd. rewrite Hc in Hd.
      destruct k as [f|f|f|d0 p|t].
      * discriminate Hd.
      * destruct ok; [destruct (data f)|];
          (cbn [pdfDoc set_isLoading set_error] in Hd; specialize (H2 d Hd); lia).
      * destruct ok; [destruct (data f) as [| |pages] eqn:E|];
          try (cbn [pdfDoc set_isLoading set_error] in Hd; specialize (H2 d Hd); lia).
        cbn [pdfDoc set_isLoading set_totalPages set_pdfDoc] in Hd.
        injection Hd as <-. specialize (Lf' f pages eq_refl eq_refl E).
        cbn [doc_id]. lia.
      * destruct ok; cbn [pdfDoc set_renderTask] in Hd; specialize (H2 d Hd); lia.
      * destruct (isCancelled t _); [|destruct ok];
          cbn [pdfDoc set_renderTask] in Hd; specialize (H2 d Hd); lia.
Qed.

Lemma IdsInv_reachable (w : World) : Reachable w -> IdsInv w.
Proof.
  induction 1 as [|l w w' _ IH _ Hstep].
  - split; [intros id [] | intros d Hd; discriminate Hd].
  - now apply (IdsInv_step l w w').
Qed.

(** X24.  [ngOnDestroy] on a component without a document changes nothing.
    It does not stop a [loadPdf] that is still running: when the component
    is torn down while a parse is awaited and the parse is then fulfilled,
    the new document is attached all the same, and [destroy()] was never
    called on it. *)
Theorem X24_teardown_leaves_the_load_running
    (w : World) (id : nat) (f : File) (pages : list Page) (rest : list (nat * Cont)) :
  Reachable w ->
  take id (pending w) = Some (LoadGetDocument f, rest) ->
  data f = Pdf pages ->
  (pdfDoc (comp w) = None -> ngOnDestroy w = w)
  /\ exists w',
       run [NgOnDestroy; Settle id true] w = Some w'
       /\ pdfDoc (comp w') = Some (mkDoc (fresh w) f pages)
       /\ released (mkDoc (fresh w) f pages) w' = 0%nat.
Proof.
  intros Hw Htake Hdata. split.
  { intros Hnone. unfold ngOnDestroy. now rewrite Hnone. }
  assert (Hinv : IdsInv (ngOnDestroy w)).
  { apply (IdsInv_step NgOnDestroy w); [reflexivity | now apply IdsInv_reachable]. }
  assert (Hp : pending (ngOnDestroy w) = pending w
               /\ fresh (ngOnDestroy w) = fresh w).
  { unfold ngOnDestroy. destruct (pdfDoc (comp w)); split; reflexivity. }
  destruct Hp as [Hp Hf].
  cbn [run step]. rewrite Hp, Htake.
  eexists. split; [reflexivity|].
  destruct (resume_logs (LoadGetDocument f) true (with_pending rest (ngOnDestroy w)))
    as (_ & Ld & _).
  split.
  - rewrite comp_resume, Hdata. cbn [fresh with_pending]. rewrite Hf. reflexivity.
  - unfold released. rewrite Ld. cbn [destroyed with_pending doc_id].
    apply count_occ_not_In. intros Hin.
    destruct Hinv as [H1 _]. specialize (H1 _ Hin). lia.
Qed.

Lemma X24_witness :
  exists w',
    run [NgOnDestroy; Settle 1 true] (finalOf b_parsing) = Some w'
    /\ pdfDoc (comp w') = Some (b_handle 2)
    /\ released (b_handle 2) w' = 0%nat.
Proof.
  destruct (X24_teardown_leaves_the_load_running (finalOf b_parsing) 1 b_doc
              [PageText ["b1"]; PageText ["b2"]; PageText ["b3"]] [])
    as (_ & w' & Hrun & Hdoc & Hrel).
  - apply (run_reachable b_parsing initial); [constructor | vm_compute; reflexivity].
  - vm_compute. reflexivity.
  - reflexivity.
  - exists w'. split; [exact Hrun|]. split; [exact Hdoc | exact Hrel].
Defined.

End ViewerExtra.
